(** * Voice assistant front-end: a shallow embedding of [VoiceAssistant.jsx]

    The development follows the React component of the repository:
    the localisation helper [t] and its [translations] table, the state
    held in the component's hooks, and the event handlers
    [handleSendCommand], [startLocalRecognition], [startRecording] (with
    the recorder callbacks and the auto-stop timer) and
    [handleSendFeedback].

    Conventions.
    - A JavaScript string is a [string] holding its UTF-8 bytes; the
      literals of the source are kept byte for byte.
    - A value that may be [undefined] is an [option]; truthiness is
      written out ([truthy]).
    - A handler is a function from the component state and the outcome
      of the browser calls it awaits ([FetchResult], [Env]) to the new
      state together with the requests it sent and the lines it logged.
      State setters with a functional update ([setHistory (prev => ...)])
      are applied to the state in the order the handler issues them. *)

From stdpp Require Import gmap strings list pretty.
From Stdlib Require Import Ascii ZArith Lia Permutation.

Local Open Scope Z_scope.

(** ** JavaScript strings *)

Module JS.

Definition dquote : ascii := "034"%char.
Definition backslash : ascii := "092"%char.

Definition byte (c : ascii) : N := N_of_ascii c.

(** [!s] on a string: only the empty string is falsy. *)
Definition str_truthy (s : string) : bool := negb (String.eqb s "").

(** Truthiness of a string-or-undefined value. *)
Definition truthy (v : option string) : bool :=
  match v with
  | Some s => str_truthy s
  | None => false
  end.

(** [a || b] where [b] is a string. *)
Definition or_str (a : option string) (b : string) : string :=
  match a with
  | Some s => if str_truthy s then s else b
  | None => b
  end.

(** White space and line terminators removed by [String.prototype.trim],
    by the length of their UTF-8 encoding:
    TAB LF VT FF CR SP;  U+00A0;  U+1680, U+2000..U+200A, U+2028, U+2029,
    U+202F, U+205F, U+3000, U+FEFF. *)
Definition is_ws1 (a : ascii) : bool :=
  let n := byte a in
  ((9 <=? n) && (n <=? 13))%N || (n =? 32)%N.

Definition is_ws2 (a b : ascii) : bool :=
  ((byte a =? 194) && (byte b =? 160))%N.

Definition is_ws3 (a b c : ascii) : bool :=
  let x := byte a in let y := byte b in let z := byte c in
  ((x =? 225) && (y =? 154) && (z =? 128))%N
  || ((x =? 226) && (y =? 128)
      && (((128 <=? z) && (z <=? 138)) || (z =? 168) || (z =? 169) || (z =? 175)))%N
  || ((x =? 226) && (y =? 129) && (z =? 159))%N
  || ((x =? 227) && (y =? 128) && (z =? 128))%N
  || ((x =? 239) && (y =? 187) && (z =? 191))%N.

Fixpoint trimStart (s : string) : string :=
  match s with
  | EmptyString => s
  | String a r1 =>
      if is_ws1 a then trimStart r1
      else match r1 with
           | EmptyString => s
           | String b r2 =>
               if is_ws2 a b then trimStart r2
               else match r2 with
                    | EmptyString => s
                    | String c r3 => if is_ws3 a b c then trimStart r3 else s
                    end
           end
  end.

(** The same scan on the reversed string: the bytes of a code point are
    met last byte first. *)
Fixpoint trimStart_rev (s : string) : string :=
  match s with
  | EmptyString => s
  | String a r1 =>
      if is_ws1 a then trimStart_rev r1
      else match r1 with
           | EmptyString => s
           | String b r2 =>
               if is_ws2 b a then trimStart_rev r2
               else match r2 with
                    | EmptyString => s
                    | String c r3 => if is_ws3 c b a then trimStart_rev r3 else s
                    end
           end
  end.

Definition trimEnd (s : string) : string :=
  String.rev (trimStart_rev (String.rev s)).

Definition trim (s : string) : string := trimEnd (trimStart s).

(** [o[k]] among the own properties of an object, given as their list:
    the value of the property named [k], [None] when the object has no
    own property of that name.  It is [o[k]] itself for every [k] that
    is not the name of a member of [Object.prototype]; the read through
    the prototype chain is [Inherited.read_table]. *)
Fixpoint get_own {A : Type} (o : list (string * A)) (k : string) : option A :=
  match o with
  | [] => None
  | (name, v) :: rest => if String.eqb name k then Some v else get_own rest k
  end.

(** The outcome of evaluating an expression that may throw. *)
Inductive Completion (A : Type) : Type :=
  | Returns (a : A)
  | Throws (error : string).
Arguments Returns {A} a.
Arguments Throws {A} error.

End JS.

(** ** Localisation: [recognitionLangMap], [translations] and [t] *)

Module I18n.
Import JS.

Definition recognitionLangMap : list (string * string) :=
  [ ("pt", "pt-BR"); ("en", "en-US"); ("es", "es-ES"); ("fr", "fr-FR");
    ("de", "de-DE"); ("ar", "ar-SA"); ("ru", "ru-RU") ].

Definition translations_pt : list (string * string) :=
  [ ("title", "Meu Assistente de Voz");
    ("placeholder", "Digite seu comando");
    ("sendText", "Enviar comando");
    ("speak", "Falar");
    ("viewHistory", "Ver conversa completa");
    ("feedbackTitle", "Enviar Feedback");
    ("feedbackPlaceholder", "Digite seu feedback...");
    ("ratingLabel", "Avaliação:");
    ("sendFeedback", "Enviar Feedback");
    ("recording", "🎙️ Gravando...");
    ("speakBtn", "🎙️ Falar");
    ("responseTitle", "Resposta do Assistente:");
    ("uploading", "⏳ Enviando áudio...");
    ("uploaded", "✅ Áudio enviado");
    ("uploadError", "❌ Erro ao enviar áudio");
    ("micNotSupported", "Seu navegador não suporta gravação de áudio.");
    ("recordingNotSupported", "Gravação não suportada neste navegador.");
    ("micAccessError", "Não foi possível acessar o microfone. Verifique permissões e dispositivo.");
    ("recognitionNotSupported", "Reconhecimento de voz não suportado neste navegador.");
    ("feedbackEmpty", "⚠️ Escreva uma mensagem antes de enviar.");
    ("feedbackSent", "Feedback enviado com sucesso!");
    ("feedbackError", "⚠️ Não foi possível enviar o feedback.");
    ("assistantNotAvailable", "Sem resposta.") ].

Definition translations_en : list (string * string) :=
  [ ("title", "My Voice Assistant");
    ("placeholder", "Type your command");
    ("sendText", "Send command");
    ("speak", "Speak");
    ("viewHistory", "View full conversation");
    ("feedbackTitle", "Send Feedback");
    ("feedbackPlaceholder", "Type your feedback...");
    ("ratingLabel", "Rating:");
    ("sendFeedback", "Send Feedback");
    ("recording", "🎙️ Recording...");
    ("speakBtn", "🎙️ Speak");
    ("responseTitle", "Assistant Response:");
    ("uploading", "⏳ Uploading audio...");
    ("uploaded", "✅ Audio uploaded");
    ("uploadError", "❌ Error uploading audio");
    ("micNotSupported", "Your browser does not support audio recording.");
    ("recordingNotSupported", "Recording not supported in this browser.");
    ("micAccessError", "Could not access the microphone. Check permissions and device.");
    ("recognitionNotSupported", "Voice recognition not supported in this browser.");
    ("feedbackEmpty", "⚠️ Write a message before sending.");
    ("feedbackSent", "Feedback sent successfully!");
    ("feedbackError", "⚠️ Could not send feedback.");
    ("assistantNotAvailable", "No response.") ].

Definition translations_es : list (string * string) :=
  [ ("title", "Mi Asistente de Voz");
    ("placeholder", "Escribe tu comando");
    ("sendText", "Enviar comando");
    ("speak", "Hablar");
    ("viewHistory", "Ver conversación completa");
    ("feedbackTitle", "Enviar Comentarios");
    ("feedbackPlaceholder", "Escribe tus comentarios...");
    ("ratingLabel", "Calificación:");
    ("sendFeedback", "Enviar Comentarios");
    ("recording", "🎙️ Grabando...");
    ("speakBtn", "🎙️ Hablar");
    ("responseTitle", "Respuesta del Asistente:");
    ("uploading", "⏳ Enviando audio...");
    ("uploaded", "✅ Audio enviado");
    ("uploadError", "❌ Error al enviar audio");
    ("micNotSupported", "Tu navegador no admite grabación de audio.");
    ("recordingNotSupported", "Grabación no compatible en este navegador.");
    ("micAccessError", "No se pudo acceder al micrófono. Verifica permisos y dispositivo.");
    ("recognitionNotSupported", "Reconocimiento de voz no compatible en este navegador.");
    ("feedbackEmpty", "⚠️ Escribe un mensaje antes de enviar.");
    ("feedbackSent", "Comentarios enviados con éxito!");
    ("feedbackError", "⚠️ No se pudieron enviar los comentarios.");
    ("assistantNotAvailable", "Sin respuesta.") ].

Definition translations_fr : list (string * string) :=
  [ ("title", "Mon Assistant Vocal");
    ("placeholder", "Tapez votre commande");
    ("sendText", "Envoyer commande");
    ("speak", "Parler");
    ("viewHistory", "Voir la conversation complète");
    ("feedbackTitle", "Envoyer un retour");
    ("feedbackPlaceholder", "Tapez votre retour...");
    ("ratingLabel", "Évaluation:");
    ("sendFeedback", "Envoyer");
    ("recording", "🎙️ Enregistrement...");
    ("speakBtn", "🎙️ Parler");
    ("responseTitle", "Réponse de l'assistant:");
    ("uploading", "⏳ Envoi de l'audio...");
    ("uploaded", "✅ Audio envoyé");
    ("uploadError", "❌ Erreur lors de l'envoi de l'audio");
    ("micNotSupported", "Votre navigateur ne prend pas en charge l'enregistrement audio.");
    ("recordingNotSupported", "Enregistrement non pris en charge dans ce navigateur.");
    ("micAccessError", "Impossible d'accéder au microphone. Vérifiez les autorisations et l'appareil.");
    ("recognitionNotSupported", "Reconnaissance vocale non prise en charge dans ce navigateur.");
    ("feedbackEmpty", "⚠️ Écrivez un message avant d'envoyer.");
    ("feedbackSent", "Retour envoyé avec succès!");
    ("feedbackError", "⚠️ Impossible d'envoyer le retour.");
    ("assistantNotAvailable", "Pas de réponse.") ].

Definition translations_de : list (string * string) :=
  [ ("title", "Mein Sprachassistent");
    ("placeholder", "Geben Sie Ihren Befehl ein");
    ("sendText", "Befehl senden");
    ("speak", "Sprechen");
    ("viewHistory", "Gespräch anzeigen");
    ("feedbackTitle", "Feedback senden");
    ("feedbackPlaceholder", "Geben Sie Ihr Feedback ein...");
    ("ratingLabel", "Bewertung:");
    ("sendFeedback", "Feedback senden");
    ("recording", "🎙️ Aufnahme...");
    ("speakBtn", "🎙️ Sprechen");
    ("responseTitle", "Antwort des Assistenten:");
    ("uploading", "⏳ Audio wird hochgeladen...");
    ("uploaded", "✅ Audio hochgeladen");
    ("uploadError", "❌ Fehler beim Hochladen des Audios");
    ("micNotSupported", "Ihr Browser unterstützt keine Audioaufnahme.");
    ("recordingNotSupported", "Aufnahme in diesem Browser nicht unterstützt.");
    ("micAccessError", "Mikrofon konnte nicht zugegriffen werden. Überprüfen Sie Berechtigungen und Gerät.");
    ("recognitionNotSupported", "Spracherkennung in diesem Browser nicht unterstützt.");
    ("feedbackEmpty", "⚠️ Schreiben Sie eine Nachricht, bevor Sie senden.");
    ("feedbackSent", "Feedback erfolgreich gesendet!");
    ("feedbackError", "⚠️ Feedback konnte nicht gesendet werden.");
    ("assistantNotAvailable", "Keine Antwort.") ].

Definition translations_ar : list (string * string) :=
  [ ("title", "مساعدي الصوتي");
    ("placeholder", "اكتب أمرك");
    ("sendText", "إرسال الأمر");
    ("speak", "تحدث");
    ("viewHistory", "عرض المحادثة كاملة");
    ("feedbackTitle", "إرسال ملاحظات");
    ("feedbackPlaceholder", "اكتب ملاحظاتك...");
    ("ratingLabel", "التقييم:");
    ("sendFeedback", "إرسال الملاحظات");
    ("recording", "🎙️ جاري التسجيل...");
    ("speakBtn", "🎙️ تحدث");
    ("responseTitle", "رد المساعد:");
    ("uploading", "⏳ جارٍ إرسال الصوت...");
    ("uploaded", "✅ تم إرسال الصوت");
    ("uploadError", "❌ خطأ في إرسال الصوت");
    ("micNotSupported", "المتصفح لا يدعم تسجيل الصوت.");
    ("recordingNotSupported", "التسجيل غير مدعوم في هذا المتصفح.");
    ("micAccessError", "تعذر الوصول إلى الميكروفون. تحقق من الأذونات والجهاز.");
    ("recognitionNotSupported", "التعرف على الصوت غير مدعوم في هذا المتصفح.");
    ("feedbackEmpty", "⚠️ اكتب رسالة قبل الإرسال.");
    ("feedbackSent", "تم إرسال الملاحظات بنجاح!");
    ("feedbackError", "⚠️ تعذر إرسال الملاحظات.");
    ("assistantNotAvailable", "لا توجد استجابة.") ].

Definition translations_ru : list (string * string) :=
  [ ("title", "Мой голосовой помощник");
    ("placeholder", "Введите команду");
    ("sendText", "Отправить команду");
    ("speak", "Говорить");
    ("viewHistory", "Просмотреть всю беседу");
    ("feedbackTitle", "Отправить отзыв");
    ("feedbackPlaceholder", "Введите ваш отзыв...");
    ("ratingLabel", "Оценка:");
    ("sendFeedback", "Отправить отзыв");
    ("recording", "🎙️ Запись...");
    ("speakBtn", "🎙️ Говорить");
    ("responseTitle", "Ответ помощника:");
    ("uploading", "⏳ Отправка аудио...");
    ("uploaded", "✅ Аудио отправлено");
    ("uploadError", "❌ Ошибка при отправке аудио");
    ("micNotSupported", "Ваш браузер не поддерживает запись аудио.");
    ("recordingNotSupported", "Запись не поддерживается в этом браузере.");
    ("micAccessError", "Не удалось получить доступ к микрофону. Проверьте разрешения и устройство.");
    ("recognitionNotSupported", "Распознавание голоса не поддерживается в этом браузере.");
    ("feedbackEmpty", "⚠️ Напишите сообщение перед отправкой.");
    ("feedbackSent", "Отзыв успешно отправлен!");
    ("feedbackError", "⚠️ Не удалось отправить отзыв.");
    ("assistantNotAvailable", "Нет ответа.") ].

(** The object literal [translations], language by language, in the
    order of the source. *)
Definition translations : list (string * list (string * string)) :=
  [ ("pt", translations_pt); ("en", translations_en); ("es", translations_es);
    ("fr", translations_fr); ("de", translations_de); ("ar", translations_ar);
    ("ru", translations_ru) ].

Definition supported_languages : list string := translations.*1.

(** [translations[lang] && translations[lang][key]] *)
Definition own_entry (lang key : string) : option string :=
  match get_own translations lang with
  | Some table => get_own table key
  | None => None
  end.

(** [translations["en"][key] || key].  Reading a property of [undefined]
    is a TypeError, the only way the expression of [t] can throw. *)
Definition default_entry (key : string) : Completion string :=
  match get_own translations "en" with
  | None => Throws "TypeError"
  | Some en => Returns (or_str (get_own en key) key)
  end.

(** [const t = (lang, key) => (translations[lang] && translations[lang][key])
       || translations["en"][key] || key], on the own entries of the
    tables: the right operand of [||] is evaluated only when the left
    one is falsy.  This is the expression of the source whenever
    neither [lang] nor [key] names a member of [Object.prototype]
    (the language codes of the selector and the keys the component
    passes do not); [Inherited.t_source] is the expression with the
    inherited members. *)
Definition t_run (lang key : string) : Completion string :=
  match own_entry lang key with
  | Some s => if str_truthy s then Returns s else default_entry key
  | None => default_entry key
  end.

(** [t] as the handlers use it, a string-valued function ([t_run] never
    throws, see [t_run_returns_t]). *)
Definition t (lang key : string) : string :=
  match t_run lang key with
  | Returns s => s
  | Throws _ => key
  end.

(** The resolver as the specification words it: the entry of the
    language's table when present, otherwise the entry of the default
    language's table, otherwise the key. *)
Definition default_language : string := "en".

Definition table_entry (lang key : string) : option string :=
  table ← get_own translations lang; get_own table key.

Definition resolve_spec (lang key : string) : string :=
  match table_entry lang key with
  | Some s => s
  | None =>
      match table_entry default_language key with
      | Some s => s
      | None => key
      end
  end.

End I18n.

(** ** Data model: exchanges, blobs, JSON values and the response body *)

Module Model.
Import JS.

(** One turn of the conversation, [{ role, text }]. *)
Record Exchange : Type := { role : string; text : string }.

Definition user_says (s : string) : Exchange := {| role := "user"; text := s |}.
Definition assistant_says (s : string) : Exchange :=
  {| role := "assistant"; text := s |}.
Definition error_says (s : string) : Exchange := {| role := "error"; text := s |}.

(** A [Blob]: its bytes and its MIME type. *)
Record Blob : Type := { blob_data : string; blob_type : string }.

Definition blob_size (b : Blob) : nat := String.length (blob_data b).

(** [new Blob(parts, { type })] *)
Definition new_Blob (parts : list Blob) (type : string) : Blob :=
  {| blob_data := foldr (fun part acc => blob_data part +:+ acc) "" parts;
     blob_type := type |}.

(** A JavaScript value as [res.json()] can produce it (numbers are kept
    to the integers), with [undefined] for a missing property.  An
    object is the list of its own properties in enumeration order. *)
#[local] Unset Elimination Schemes.
Inductive jsval : Type :=
  | JUndefined
  | JNull
  | JBool (b : bool)
  | JNum (n : Z)
  | JStr (s : string)
  | JArr (items : list jsval)
  | JObj (props : list (string * jsval)).
#[local] Set Elimination Schemes.

Definition val_truthy (v : jsval) : bool :=
  match v with
  | JUndefined | JNull => false
  | JBool b => b
  | JNum n => negb (n =? 0)
  | JStr s => str_truthy s
  | JArr _ | JObj _ => true
  end.

(** [a || b] *)
Definition val_or (a b : jsval) : jsval := if val_truthy a then a else b.

(** [item.name] for the property names the component reads ([label],
    [title], [name], [url], [href]): none of them exists on an array. *)
Definition get_prop (item : jsval) (name : string) : jsval :=
  match item with
  | JObj props =>
      default JUndefined (get_own props name)
  | _ => JUndefined
  end.

(** The [actions] field of a response body: absent, a list, or a keyed
    mapping given by its properties in enumeration order. *)
Inductive ActionsField : Type :=
  | ActAbsent
  | ActList (items : list jsval)
  | ActMap (props : list (string * jsval)).

(** [Object.entries(o)] *)
Definition Object_entries (props : list (string * jsval)) : list jsval :=
  (fun p => JArr [JStr p.1; p.2]) <$> props.

(** [Array.isArray(data.actions) ? data.actions
       : Object.entries(data.actions || {})] *)
Definition normalize_actions (a : ActionsField) : list jsval :=
  match a with
  | ActList items => items
  | ActMap props => Object_entries props
  | ActAbsent => Object_entries []
  end.

(** The parsed body of a reply, [data]. *)
Record Data : Type := {
  data_response : option string;
  data_audio : option string;
  data_actions : ActionsField;
  data_input : option string;
  data_status : option string
}.

(** The callback of [actions.map((item, i) => ...)]: the link text and
    the [href] of the list item it renders, [None] where it renders
    nothing. *)
Definition render_action (i : nat) (item : jsval) : option (jsval * jsval) :=
  match item with
  | JArr (key :: url :: _) => Some (key, url)
  | JArr _ | JObj _ =>
      let key :=
        val_or (get_prop item "label")
          (val_or (get_prop item "title")
             (val_or (get_prop item "name")
                (JStr ("Action " +:+ pretty (i + 1)%nat)))) in
      let url :=
        val_or (get_prop item "url")
          (val_or (get_prop item "href") (JStr "#")) in
      Some (key, url)
  | _ => None
  end.

(** The items of the links area, one per entry of [actions]. *)
Definition render_actions (actions : list jsval) : list (option (jsval * jsval)) :=
  imap render_action actions.

End Model.

(** ** The persisted form of the history: [JSON.stringify] and [JSON.parse] *)

Module Json.
Import JS Model.

Definition hex_digit (n : N) : ascii :=
  if (n <? 10)%N then ascii_of_N (48 + n) else ascii_of_N (87 + n).

(** QuoteJSONString, one byte at a time: the two-character escapes, the
    [\u00xx] form for the other control characters, the byte itself
    otherwise. *)
Definition quote_char (c : ascii) : string :=
  let n := byte c in
  if (n =? 8)%N then String backslash "b"
  else if (n =? 9)%N then String backslash "t"
  else if (n =? 10)%N then String backslash "n"
  else if (n =? 12)%N then String backslash "f"
  else if (n =? 13)%N then String backslash "r"
  else if (n =? 34)%N then String backslash (String dquote "")
  else if (n =? 92)%N then String backslash (String backslash "")
  else if (n <? 32)%N then
    String backslash
      ("u00" +:+ String (hex_digit (n / 16)) (String (hex_digit (n mod 16)) ""))
  else String c "".

Fixpoint quote_chars (s : string) : string :=
  match s with
  | EmptyString => ""
  | String c rest => quote_char c +:+ quote_chars rest
  end.

Definition QuoteJSONString (s : string) : string :=
  String dquote (quote_chars s +:+ String dquote "").

(** [JSON.stringify] of an exchange, properties in creation order. *)
Definition stringify_exchange (e : Exchange) : string :=
  "{" +:+ QuoteJSONString "role" +:+ ":" +:+ QuoteJSONString (role e) +:+ ","
      +:+ QuoteJSONString "text" +:+ ":" +:+ QuoteJSONString (text e) +:+ "}".

Fixpoint join_comma (parts : list string) : string :=
  match parts with
  | [] => ""
  | [p] => p
  | p :: rest => p +:+ "," +:+ join_comma rest
  end.

(** [JSON.stringify(history)] *)
Definition stringify_history (h : list Exchange) : string :=
  "[" +:+ join_comma (stringify_exchange <$> h) +:+ "]".

(** *** Parsing *)

Definition hex_value (c : ascii) : option N :=
  let n := byte c in
  if ((48 <=? n) && (n <=? 57))%N then Some (n - 48)%N
  else if ((97 <=? n) && (n <=? 102))%N then Some (n - 87)%N
  else if ((65 <=? n) && (n <=? 70))%N then Some (n - 55)%N
  else None.

Definition hex4 (a b c d : ascii) : option N :=
  match hex_value a, hex_value b, hex_value c, hex_value d with
  | Some x, Some y, Some z, Some w => Some (((x * 16 + y) * 16 + z) * 16 + w)%N
  | _, _, _, _ => None
  end.

(** The UTF-8 bytes of the code unit of a [\uXXXX] escape; the halves of
    a surrogate pair are left out of the model. *)
Definition utf8_of_code_unit (n : N) : option string :=
  if (n <? 128)%N then Some (String (ascii_of_N n) "")
  else if (n <? 2048)%N then
    Some (String (ascii_of_N (192 + n / 64))
            (String (ascii_of_N (128 + n mod 64)) ""))
  else if ((55296 <=? n) && (n <=? 57343))%N then None
  else
    Some (String (ascii_of_N (224 + n / 4096))
            (String (ascii_of_N (128 + (n / 64) mod 64))
               (String (ascii_of_N (128 + n mod 64)) ""))).

(** The character a two-character escape stands for. *)
Definition unescape (e : ascii) : option ascii :=
  let n := byte e in
  if (n =? 34)%N then Some dquote
  else if (n =? 92)%N then Some backslash
  else if (n =? 47)%N then Some "/"%char
  else if (n =? 98)%N then Some (ascii_of_N 8)
  else if (n =? 102)%N then Some (ascii_of_N 12)
  else if (n =? 110)%N then Some (ascii_of_N 10)
  else if (n =? 114)%N then Some (ascii_of_N 13)
  else if (n =? 116)%N then Some (ascii_of_N 9)
  else None.

Definition prepend (prefix : string) (r : option (string * string))
  : option (string * string) :=
  match r with
  | Some (value, rest) => Some (prefix +:+ value, rest)
  | None => None
  end.

(** The characters of a string literal up to its closing quote: the
    value read and the input left.  A raw control character or a bad
    escape is a SyntaxError ([None]). *)
Fixpoint parse_chars (s : string) : option (string * string) :=
  match s with
  | EmptyString => None
  | String c r =>
      if Ascii.eqb c dquote then Some ("", r)
      else if Ascii.eqb c backslash then
        match r with
        | EmptyString => None
        | String e r1 =>
            if Ascii.eqb e "u"%char then
              match r1 with
              | String h1 (String h2 (String h3 (String h4 r2))) =>
                  match hex4 h1 h2 h3 h4 with
                  | Some n =>
                      match utf8_of_code_unit n with
                      | Some bytes => prepend bytes (parse_chars r2)
                      | None => None
                      end
                  | None => None
                  end
              | _ => None
              end
            else
              match unescape e with
              | Some c' => prepend (String c' "") (parse_chars r1)
              | None => None
              end
        end
      else if (byte c <? 32)%N then None
      else prepend (String c "") (parse_chars r)
  end.

(** Reads the literal [lit] off the front of the input. *)
Fixpoint expect (lit s : string) : option string :=
  match lit with
  | EmptyString => Some s
  | String c lit' =>
      match s with
      | String d s' => if Ascii.eqb c d then expect lit' s' else None
      | EmptyString => None
      end
  end.

Definition parse_string (s : string) : option (string * string) :=
  match s with
  | String c r => if Ascii.eqb c dquote then parse_chars r else None
  | EmptyString => None
  end.

(** A property [name : "..."] with the expected name. *)
Definition parse_member (name s : string) : option (string * string) :=
  match parse_string s with
  | Some (key, s1) =>
      if String.eqb key name then
        match expect ":" s1 with
        | Some s2 => parse_string s2
        | None => None
        end
      else None
  | None => None
  end.

(** An exchange object as [stringify_exchange] writes it. *)
Definition parse_exchange (s : string) : option (Exchange * string) :=
  match expect "{" s with
  | Some s1 =>
      match parse_member "role" s1 with
      | Some (r, s2) =>
          match expect "," s2 with
          | Some s3 =>
              match parse_member "text" s3 with
              | Some (tx, s4) =>
                  match expect "}" s4 with
                  | Some s5 => Some ({| role := r; text := tx |}, s5)
                  | None => None
                  end
              | None => None
              end
          | None => None
          end
      | None => None
      end
  | None => None
  end.

(** The elements of a non-empty array up to its closing bracket.  Each
    round consumes input, so the length of the input is fuel enough. *)
Fixpoint parse_elements (fuel : nat) (s : string)
  : option (list Exchange * string) :=
  match fuel with
  | O => None
  | S fuel' =>
      match parse_exchange s with
      | Some (e, String c s1) =>
          if Ascii.eqb c ","%char then
            match parse_elements fuel' s1 with
            | Some (es, s2) => Some (e :: es, s2)
            | None => None
            end
          else if Ascii.eqb c "]"%char then Some ([e], s1)
          else None
      | _ => None
      end
  end.

(** [JSON.parse] on the stored history.  The model covers the texts
    [JSON.stringify] writes for a list of exchanges (no insignificant
    white space, properties [role] then [text]); [None] stands for a
    SyntaxError or a text outside that form. *)
Definition parse_history (s : string) : option (list Exchange) :=
  match expect "[" s with
  | Some s1 =>
      match s1 with
      | String c s2 =>
          if Ascii.eqb c "]"%char then
            match s2 with EmptyString => Some [] | _ => None end
          else
            match parse_elements (String.length s1) s1 with
            | Some (es, EmptyString) => Some es
            | _ => None
            end
      | EmptyString => None
      end
  | None => None
  end.

End Json.

(** ** The component [VoiceAssistant] *)

Module Component.
Import JS I18n Model Json.

(** The recognition object kept in [recognitionRef]: its [lang]. *)
Record Recognition : Type := { recognition_lang : string }.

(** [MediaRecorder.state] *)
Inductive RecordingState : Type := inactive | recording | paused.

(** The requests the component sends. *)
Inductive Request : Type :=
  | PostProcess (text_input lang : string)
  | PostUpload (file : Blob) (lang : string)
  | PostFeedback (user message : string) (rating : Z) (lang : string).

Definition request_url (r : Request) : string :=
  match r with
  | PostProcess _ _ => "http://127.0.0.1:8000/assistant/process"
  | PostUpload _ _ => "http://127.0.0.1:8000/assistant/process/upload"
  | PostFeedback _ _ _ _ => "http://127.0.0.1:8000/feedback/"
  end.

(** What the server sent back: [res.ok], [res.status], and what
    [res.text()] and [res.json()] resolve to ([None] when they reject). *)
Record Response : Type := {
  res_ok : bool;
  res_status : Z;
  res_body_text : option string;
  res_body_json : option Data
}.

(** The outcome of [await fetch(...)]: the promise rejects (no
    connection) or resolves to a response of any status. *)
Inductive FetchResult : Type :=
  | NetworkError (message : string)
  | Responded (res : Response).

(** The hooks of the component ([useState], [useRef]); the theme and the
    two visibility toggles, which no handler below reads or writes, are
    left out. *)
Record State : Type := {
  command : string;
  response : string;
  audioUrl : string;
  actions : list jsval;
  history : list Exchange;
  listening : bool;
  feedbackMessage : string;
  feedbackRating : Z;
  feedbackStatus : string;
  uploadStatus : string;
  language : string;
  recognitionRef : option Recognition;
  mediaRecorderRef : option nat;
  audioChunksRef : list Blob
}.

(** Record update, one field at a time. *)
Definition with_command (v : string) (st : State) : State :=
  {| command := v; response := response st; audioUrl := audioUrl st;
     actions := actions st; history := history st;
     listening := listening st; feedbackMessage := feedbackMessage st;
     feedbackRating := feedbackRating st;
     feedbackStatus := feedbackStatus st; uploadStatus := uploadStatus st;
     language := language st; recognitionRef := recognitionRef st;
     mediaRecorderRef := mediaRecorderRef st;
     audioChunksRef := audioChunksRef st |}.

Definition with_response (v : string) (st : State) : State :=
  {| command := command st; response := v; audioUrl := audioUrl st;
     actions := actions st; history := history st;
     listening := listening st; feedbackMessage := feedbackMessage st;
     feedbackRating := feedbackRating st;
     feedbackStatus := feedbackStatus st; uploadStatus := uploadStatus st;
     language := language st; recognitionRef := recognitionRef st;
     mediaRecorderRef := mediaRecorderRef st;
     audioChunksRef := audioChunksRef st |}.

Definition with_audioUrl (v : string) (st : State) : State :=
  {| command := command st; response := response st; audioUrl := v;
     actions := actions st; history := history st;
     listening := listening st; feedbackMessage := feedbackMessage st;
     feedbackRating := feedbackRating st;
     feedbackStatus := feedbackStatus st; uploadStatus := uploadStatus st;
     language := language st; recognitionRef := recognitionRef st;
     mediaRecorderRef := mediaRecorderRef st;
     audioChunksRef := audioChunksRef st |}.

Definition with_actions (v : list jsval) (st : State) : State :=
  {| command := command st; response := response st;
     audioUrl := audioUrl st; actions := v; history := history st;
     listening := listening st; feedbackMessage := feedbackMessage st;
     feedbackRating := feedbackRating st;
     feedbackStatus := feedbackStatus st; uploadStatus := uploadStatus st;
     language := language st; recognitionRef := recognitionRef st;
     mediaRecorderRef := mediaRecorderRef st;
     audioChunksRef := audioChunksRef st |}.

Definition with_history (v : list Exchange) (st : State) : State :=
  {| command := command st; response := response st;
     audioUrl := audioUrl st; actions := actions st; history := v;
     listening := listening st; feedbackMessage := feedbackMessage st;
     feedbackRating := feedbackRating st;
     feedbackStatus := feedbackStatus st; uploadStatus := uploadStatus st;
     language := language st; recognitionRef := recognitionRef st;
     mediaRecorderRef := mediaRecorderRef st;
     audioChunksRef := audioChunksRef st |}.

Definition with_listening (v : bool) (st : State) : State :=
  {| command := command st; response := response st;
     audioUrl := audioUrl st; actions := actions st; history := history st;
     listening := v; feedbackMessage := feedbackMessage st;
     feedbackRating := feedbackRating st;
     feedbackStatus := feedbackStatus st; uploadStatus := uploadStatus st;
     language := language st; recognitionRef := recognitionRef st;
     mediaRecorderRef := mediaRecorderRef st;
     audioChunksRef := audioChunksRef st |}.

Definition with_feedbackMessage (v : string) (st : State) : State :=
  {| command := command st; response := response st;
     audioUrl := audioUrl st; actions := actions st; history := history st;
     listening := listening st; feedbackMessage := v;
     feedbackRating := feedbackRating st;
     feedbackStatus := feedbackStatus st; uploadStatus := uploadStatus st;
     language := language st; recognitionRef := recognitionRef st;
     mediaRecorderRef := mediaRecorderRef st;
     audioChunksRef := audioChunksRef st |}.

Definition with_feedbackRating (v : Z) (st : State) : State :=
  {| command := command st; response := response st;
     audioUrl := audioUrl st; actions := actions st; history := history st;
     listening := listening st; feedbackMessage := feedbackMessage st;
     feedbackRating := v; feedbackStatus := feedbackStatus st;
     uploadStatus := uploadStatus st; language := language st;
     recognitionRef := recognitionRef st;
     mediaRecorderRef := mediaRecorderRef st;
     audioChunksRef := audioChunksRef st |}.

Definition with_feedbackStatus (v : string) (st : State) : State :=
  {| command := command st; response := response st;
     audioUrl := audioUrl st; actions := actions st; history := history st;
     listening := listening st; feedbackMessage := feedbackMessage st;
     feedbackRating := feedbackRating st; feedbackStatus := v;
     uploadStatus := uploadStatus st; language := language st;
     recognitionRef := recognitionRef st;
     mediaRecorderRef := mediaRecorderRef st;
     audioChunksRef := audioChunksRef st |}.

Definition with_uploadStatus (v : string) (st : State) : State :=
  {| command := command st; response := response st;
     audioUrl := audioUrl st; actions := actions st; history := history st;
     listening := listening st; feedbackMessage := feedbackMessage st;
     feedbackRating := feedbackRating st;
     feedbackStatus := feedbackStatus st; uploadStatus := v;
     language := language st; recognitionRef := recognitionRef st;
     mediaRecorderRef := mediaRecorderRef st;
     audioChunksRef := audioChunksRef st |}.

Definition with_language (v : string) (st : State) : State :=
  {| command := command st; response := response st;
     audioUrl := audioUrl st; actions := actions st; history := history st;
     listening := listening st; feedbackMessage := feedbackMessage st;
     feedbackRating := feedbackRating st;
     feedbackStatus := feedbackStatus st; uploadStatus := uploadStatus st;
     language := v; recognitionRef := recognitionRef st;
     mediaRecorderRef := mediaRecorderRef st;
     audioChunksRef := audioChunksRef st |}.

Definition with_recognitionRef (v : option Recognition) (st : State) : State :=
  {| command := command st; response := response st;
     audioUrl := audioUrl st; actions := actions st; history := history st;
     listening := listening st; feedbackMessage := feedbackMessage st;
     feedbackRating := feedbackRating st;
     feedbackStatus := feedbackStatus st; uploadStatus := uploadStatus st;
     language := language st; recognitionRef := v;
     mediaRecorderRef := mediaRecorderRef st;
     audioChunksRef := audioChunksRef st |}.

Definition with_mediaRecorderRef (v : option nat) (st : State) : State :=
  {| command := command st; response := response st;
     audioUrl := audioUrl st; actions := actions st; history := history st;
     listening := listening st; feedbackMessage := feedbackMessage st;
     feedbackRating := feedbackRating st;
     feedbackStatus := feedbackStatus st; uploadStatus := uploadStatus st;
     language := language st; recognitionRef := recognitionRef st;
     mediaRecorderRef := v; audioChunksRef := audioChunksRef st |}.

Definition with_audioChunksRef (v : list Blob) (st : State) : State :=
  {| command := command st; response := response st;
     audioUrl := audioUrl st; actions := actions st; history := history st;
     listening := listening st; feedbackMessage := feedbackMessage st;
     feedbackRating := feedbackRating st;
     feedbackStatus := feedbackStatus st; uploadStatus := uploadStatus st;
     language := language st; recognitionRef := recognitionRef st;
     mediaRecorderRef := mediaRecorderRef st; audioChunksRef := v |}.
(** The component together with the browser objects it drives: the
    recorders created so far (a recorder is named by its index), the
    pending auto-stop timeouts, the storage area, and what has been sent
    and logged. *)
Record World : Type := {
  ui : State;
  recorders : list RecordingState;
  timers : nat;
  localStorage : gmap string string;
  network : list Request;
  console : list string
}.

Definition with_ui (v : State) (w : World) : World :=
  {| ui := v; recorders := recorders w; timers := timers w;
     localStorage := localStorage w; network := network w;
     console := console w |}.

Definition with_recorders (v : list RecordingState) (w : World) : World :=
  {| ui := ui w; recorders := v; timers := timers w;
     localStorage := localStorage w; network := network w;
     console := console w |}.

Definition with_timers (v : nat) (w : World) : World :=
  {| ui := ui w; recorders := recorders w; timers := v;
     localStorage := localStorage w; network := network w;
     console := console w |}.

Definition with_localStorage (v : gmap string string) (w : World) : World :=
  {| ui := ui w; recorders := recorders w; timers := timers w;
     localStorage := v; network := network w; console := console w |}.

Definition with_network (v : list Request) (w : World) : World :=
  {| ui := ui w; recorders := recorders w; timers := timers w;
     localStorage := localStorage w; network := v; console := console w |}.

Definition with_console (v : list string) (w : World) : World :=
  {| ui := ui w; recorders := recorders w; timers := timers w;
     localStorage := localStorage w; network := network w; console := v |}.
(** *** Handlers as state transformers that may throw *)

Definition Handler (A : Type) : Type := World -> Completion A * World.

Definition ret {A} (a : A) : Handler A := fun w => (Returns a, w).

Definition throw {A} (error : string) : Handler A := fun w => (Throws error, w).

Definition bind {A B} (m : Handler A) (k : A -> Handler B) : Handler B :=
  fun w =>
    match m w with
    | (Returns a, w') => k a w'
    | (Throws error, w') => (Throws error, w')
    end.

(** [try { body } catch (error) { handler }] *)
Definition try_catch {A} (body : Handler A) (handler : string -> Handler A)
  : Handler A :=
  fun w =>
    match body w with
    | (Returns a, w') => (Returns a, w')
    | (Throws error, w') => handler error w'
    end.

(** [try { body } finally { cleanup }] *)
Definition try_finally {A} (body : Handler A) (cleanup : Handler unit)
  : Handler A :=
  fun w =>
    match body w with
    | (r, w') =>
        match cleanup w' with
        | (Returns _, w'') => (r, w'')
        | (Throws error, w'') => (Throws error, w'')
        end
    end.

Declare Scope handler_scope.
Delimit Scope handler_scope with H.
Bind Scope handler_scope with Handler.

Notation "x <- m ;; k" := (bind m (fun x => k))
  (at level 100, m at next level, right associativity) : handler_scope.
Notation "m ;; k" := (bind m (fun _ => k))
  (at level 100, right associativity) : handler_scope.

(** The state after running a handler. *)
Definition run {A} (h : Handler A) (w : World) : World := (h w).2.

(** The values of the current render, as the closures of a handler see
    them. *)
Definition render : Handler State := fun w => (Returns (ui w), w).

Definition update (f : State -> State) : Handler unit :=
  fun w => (Returns tt, with_ui (f (ui w)) w).

Definition setCommand (v : string) : Handler unit := update (with_command v).
Definition setResponse (v : string) : Handler unit := update (with_response v).
Definition setAudioUrl (v : string) : Handler unit := update (with_audioUrl v).
Definition setActions (v : list jsval) : Handler unit := update (with_actions v).
Definition setListening (v : bool) : Handler unit := update (with_listening v).
Definition setFeedbackMessage (v : string) : Handler unit :=
  update (with_feedbackMessage v).
Definition setFeedbackRating (v : Z) : Handler unit :=
  update (with_feedbackRating v).
Definition setFeedbackStatus (v : string) : Handler unit :=
  update (with_feedbackStatus v).
Definition setUploadStatus (v : string) : Handler unit :=
  update (with_uploadStatus v).

(** [setHistory((prev) => f(prev))] *)
Definition setHistory (f : list Exchange -> list Exchange) : Handler unit :=
  update (fun st => with_history (f (history st)) st).

(** [console.error(label, error)] *)
Definition console_error (label error : string) : Handler unit :=
  fun w => (Returns tt, with_console (console w ++ [label +:+ " " +:+ error]) w).

(** [await fetch(url, ...)]: the request goes out, then the promise
    settles as the network decides. *)
Definition fetch (req : Request) (outcome : FetchResult) : Handler Response :=
  fun w =>
    let w' := with_network (network w ++ [req]) w in
    match outcome with
    | NetworkError message => (Throws message, w')
    | Responded res => (Returns res, w')
    end.

(** [if (!res.ok) { const txt = await res.text().catch(() => "");
                   throw new Error(`HTTP ${res.status} - ${txt}`); }] *)
Definition check_ok (res : Response) : Handler unit :=
  if res_ok res then ret tt
  else
    let txt := default "" (res_body_text res) in
    throw ("HTTP " +:+ pretty (res_status res) +:+ " - " +:+ txt).

(** [await res.json()] *)
Definition res_json (res : Response) : Handler Data :=
  match res_body_json res with
  | Some data => ret data
  | None => throw "SyntaxError"
  end.

Definition connection_error : string := "Erro de conexão com o servidor.".

(** *** Persistence of the history *)

Definition storage_key : string := "voiceAssistantHistory".

(** The initialiser of the [history] state:
    [saved ? JSON.parse(saved) : []]. *)
Definition initial_history (storage : gmap string string)
  : Completion (list Exchange) :=
  match storage !! storage_key with
  | Some saved =>
      if str_truthy saved then
        match parse_history saved with
        | Some h => Returns h
        | None => Throws "SyntaxError"
        end
      else Returns []
  | None => Returns []
  end.

(** The effect that runs after every change of [history]:
    [localStorage.setItem("voiceAssistantHistory", JSON.stringify(history))]. *)
Definition persist_history : Handler unit :=
  fun w =>
    (Returns tt,
     with_localStorage
       (<[storage_key := stringify_history (history (ui w))]> (localStorage w)) w).

(** *** Text commands *)

Definition handleSendCommand (outcome : FetchResult) : Handler unit :=
  (st <- render ;;
   let text := trim (command st) in
   let language := language st in
   if negb (str_truthy text) then ret tt
   else
     setHistory (fun prev => prev ++ [{| role := "user"; text := text |}]) ;;
     setResponse "" ;;
     setAudioUrl "" ;;
     try_finally
       (try_catch
          (res <- fetch (PostProcess text language) outcome ;;
           check_ok res ;;
           data <- res_json res ;;
           setResponse
             (or_str (data_response data) (t language "assistantNotAvailable")) ;;
           setAudioUrl (or_str (data_audio data) "") ;;
           setActions (normalize_actions (data_actions data)) ;;
           setHistory (fun prev =>
             prev ++ [{| role := "assistant";
                         text := or_str (data_response data)
                                   (t language "assistantNotAvailable") |}]))
          (fun error =>
             console_error "Erro ao processar comando:" error ;;
             setResponse (t language "assistantNotAvailable") ;;
             setHistory (fun prev =>
               prev ++ [{| role := "error"; text := connection_error |}])))
       (setCommand ""))%H.

(** *** Native recognition *)

(** The effect on [language]: binds a recognition object when the
    browser has one. *)
Definition bind_recognition (hasSpeechRecognition : bool) : Handler unit :=
  (st <- render ;;
   if hasSpeechRecognition then
     update (with_recognitionRef
       (Some {| recognition_lang :=
                  or_str (get_own recognitionLangMap (language st)) (language st) |}))
   else update (with_recognitionRef None))%H.

(** [recognition.start()] returns or throws as the browser decides (it
    throws when recognition is already running). *)
Definition startLocalRecognition (start : Completion unit) : Handler unit :=
  (st <- render ;;
   let language := language st in
   match recognitionRef st with
   | None => setResponse (t language "recognitionNotSupported")
   | Some recognition =>
       try_catch
         (fun w => (start, w))
         (fun error =>
            console_error "Erro ao iniciar reconhecimento:" error ;;
            setResponse (t language "recognitionNotSupported"))
   end)%H.

(** *** Recording *)

(** What the browser offers and how its calls end. *)
Record Env : Type := {
  env_getUserMedia : bool;
  env_MediaRecorder : bool;
  env_stream : Completion unit;
  env_new_with_options : Completion unit;
  env_new_plain : Completion unit;
  env_start : Completion unit
}.

(** [new MediaRecorder(stream, ...)]: a new recorder, [inactive]. *)
Definition new_MediaRecorder (outcome : Completion unit) : Handler nat :=
  fun w =>
    match outcome with
    | Returns _ =>
        (Returns (length (recorders w)),
         with_recorders (recorders w ++ [inactive]) w)
    | Throws error => (Throws error, w)
    end.

Definition recorder_state (id : nat) : Handler RecordingState :=
  fun w => (Returns (default inactive (recorders w !! id)), w).

(** [recorder.start()] *)
Definition recorder_start (id : nat) (outcome : Completion unit) : Handler unit :=
  fun w =>
    match outcome with
    | Returns _ =>
        match recorders w !! id with
        | Some inactive =>
            (Returns tt, with_recorders (<[id := recording]> (recorders w)) w)
        | _ => (Throws "InvalidStateError", w)
        end
    | Throws error => (Throws error, w)
    end.

(** [recorder.stop()]: the recorder becomes [inactive]; its
    [dataavailable] and [stop] events are delivered afterwards. *)
Definition recorder_stop (id : nat) : Handler unit :=
  fun w =>
    match recorders w !! id with
    | Some inactive | None => (Throws "InvalidStateError", w)
    | Some _ => (Returns tt, with_recorders (<[id := inactive]> (recorders w)) w)
    end.

(** [setTimeout(callback, 5000)] *)
Definition auto_stop_delay_ms : Z := 5000.

Definition setTimeout_auto_stop : Handler unit :=
  fun w => (Returns tt, with_timers (S (timers w)) w).

(** The callback given to [setTimeout] in [startRecording]. *)
Definition auto_stop_callback : Handler unit :=
  (st <- render ;;
   match mediaRecorderRef st with
   | Some current =>
       state <- recorder_state current ;;
       match state with
       | inactive => ret tt
       | _ =>
           try_catch (recorder_stop current)
             (fun stopError =>
                console_error "Erro ao parar MediaRecorder:" stopError)
       end
   | None => ret tt
   end)%H.

(** One pending timeout expires and its callback runs. *)
Definition timeout_fires : Handler unit :=
  fun w =>
    match timers w with
    | O => (Returns tt, w)
    | S n => auto_stop_callback (with_timers n w)
    end.

(** [recorder.ondataavailable] *)
Definition recorder_ondataavailable (data : option Blob) : Handler unit :=
  match data with
  | Some blob =>
      if (0 <? blob_size blob)%nat then
        update (fun st => with_audioChunksRef (audioChunksRef st ++ [blob]) st)
      else ret tt
  | None => ret tt
  end.

(** [recorder.onstart] *)
Definition recorder_onstart : Handler unit :=
  (setListening true ;; setUploadStatus "idle")%H.

(** [recorder.onerror]; [language] is the one [startRecording] saw. *)
Definition recorder_onerror (language error : string) : Handler unit :=
  (console_error "MediaRecorder error:" error ;;
   setResponse (t language "uploadError") ;;
   setListening false)%H.

(** [recorder.onstop]; [language] is the one [startRecording] saw,
    [localUrl] what [URL.createObjectURL(blob)] returns. *)
Definition recorder_onstop (language localUrl : string) (outcome : FetchResult)
  : Handler unit :=
  (setListening false ;;
   st <- render ;;
   let chunks := audioChunksRef st in
   let blob :=
     new_Blob chunks (or_str (blob_type <$> head chunks) "audio/webm") in
   setAudioUrl localUrl ;;
   setUploadStatus "uploading" ;;
   try_catch
     (res <- fetch (PostUpload blob language) outcome ;;
      check_ok res ;;
      data <- res_json res ;;
      (if truthy (data_audio data)
       then setAudioUrl (default "" (data_audio data)) else ret tt) ;;
      (if truthy (data_response data)
       then
         setResponse (default "" (data_response data)) ;;
         setHistory (fun prev =>
           prev ++ [{| role := "assistant";
                       text := default "" (data_response data) |}])
       else ret tt) ;;
      (if truthy (data_input data)
       then
         setHistory (fun prev =>
           prev ++ [{| role := "user"; text := default "" (data_input data) |}])
       else ret tt) ;;
      match data_actions data with
      | ActAbsent => ret tt
      | present => setActions (normalize_actions present)
      end ;;
      setUploadStatus "done")
     (fun error =>
        console_error "Erro ao enviar/processar áudio:" error ;;
        setUploadStatus "error" ;;
        setResponse (t language "uploadError") ;;
        setHistory (fun prev =>
          prev ++ [{| role := "error"; text := connection_error |}])))%H.

(** The recorder of [startRecording]: with the options, else without,
    else none (the handler then returns). *)
Definition construct_recorder (language : string) (env : Env)
  : Handler (option nat) :=
  (try_catch
     (recorder <- new_MediaRecorder (env_new_with_options env) ;;
      ret (Some recorder))
     (fun error =>
        console_error "MediaRecorder init com options falhou:" error ;;
        try_catch
          (recorder <- new_MediaRecorder (env_new_plain env) ;;
           ret (Some recorder))
          (fun fallbackError =>
             console_error "Fallback MediaRecorder também falhou:" fallbackError ;;
             setResponse (t language "recordingNotSupported") ;;
             ret None)))%H.

Definition startRecording (env : Env) : Handler unit :=
  (st <- render ;;
   let language := language st in
   update (with_audioChunksRef []) ;;
   setUploadStatus "idle" ;;
   setResponse "" ;;
   if negb (env_getUserMedia env) then
     setResponse (t language "micNotSupported")
   else if negb (env_MediaRecorder env) then
     setResponse (t language "recordingNotSupported")
   else
     try_catch
       ((fun w => (env_stream env, w)) ;;
        constructed <- construct_recorder language env ;;
        match constructed with
        | None => ret tt
        | Some recorder =>
            update (with_mediaRecorderRef (Some recorder)) ;;
            recorder_start recorder (env_start env) ;;
            setTimeout_auto_stop
        end)
       (fun error =>
          console_error "Erro ao acessar microfone:" error ;;
          setResponse (t language "micAccessError")))%H.

(** The microphone button. *)
Definition activate_capture (start : Completion unit) (env : Env) : Handler unit :=
  (st <- render ;;
   match recognitionRef st with
   | Some _ => startLocalRecognition start
   | None => startRecording env
   end)%H.

(** *** Feedback *)

Definition handleSendFeedback (outcome : FetchResult) : Handler unit :=
  (st <- render ;;
   let language := language st in
   if negb (str_truthy (trim (feedbackMessage st))) then
     setFeedbackStatus (t language "feedbackEmpty")
   else
     try_catch
       (res <- fetch
                 (PostFeedback "Rogerio" (feedbackMessage st)
                    (feedbackRating st) language) outcome ;;
        check_ok res ;;
        data <- res_json res ;;
        setFeedbackStatus (or_str (data_status data) (t language "feedbackSent")) ;;
        setFeedbackMessage "" ;;
        setFeedbackRating 0)
       (fun error =>
          console_error "Erro ao enviar feedback:" error ;;
          setFeedbackStatus (t language "feedbackError")))%H.

End Component.

(** ** Outcomes of a call and sample states *)

Module Scenario.
Import JS I18n Model Json Component.

(** The remote call fails: no connection, or a status outside 2xx. *)
Definition call_fails (outcome : FetchResult) : bool :=
  match outcome with
  | NetworkError _ => true
  | Responded res => negb (res_ok res)
  end.


(** A 200 response carrying [data]. *)
Definition ok_response (data : Data) : Response :=
  {| res_ok := true; res_status := 200;
     res_body_text := None; res_body_json := Some data |}.

Definition ok_with (data : Data) : FetchResult := Responded (ok_response data).

(** A 500 response with a diagnostic body. *)
Definition server_error : FetchResult :=
  Responded {| res_ok := false; res_status := 500;
               res_body_text := Some "Internal Server Error";
               res_body_json := None |}.

(** The body [{ response: "R", actions: { "Play": "http://x" } }]. *)
Definition reply_R : Data :=
  {| data_response := Some "R"; data_audio := None;
     data_actions := ActMap [("Play", JStr "http://x")];
     data_input := None; data_status := None |}.

(** The same body with the transcription [input: "hi"]. *)
Definition reply_R_heard : Data :=
  {| data_response := Some "R"; data_audio := None;
     data_actions := ActMap [("Play", JStr "http://x")];
     data_input := Some "hi"; data_status := None |}.

(** The component as first rendered, with an empty storage. *)
Definition fresh_state : State :=
  {| command := ""; response := ""; audioUrl := ""; actions := [];
     history := []; listening := false; feedbackMessage := "";
     feedbackRating := 0; feedbackStatus := ""; uploadStatus := "";
     language := "pt"; recognitionRef := None; mediaRecorderRef := None;
     audioChunksRef := [] |}.

Definition fresh_world : World :=
  {| ui := fresh_state; recorders := []; timers := 0; localStorage := ∅;
     network := []; console := [] |}.

(** The user has typed [text] in the command field. *)
Definition typed (text : string) : World :=
  with_ui (with_command text fresh_state) fresh_world.

(** The user has filled the feedback form. *)
Definition feedback_filled (message : string) (rating : Z) : World :=
  with_ui (with_feedbackRating rating (with_feedbackMessage message fresh_state))
    fresh_world.

(** A browser with a microphone and a working [MediaRecorder]. *)
Definition recording_browser : Env :=
  {| env_getUserMedia := true; env_MediaRecorder := true;
     env_stream := Returns tt; env_new_with_options := Returns tt;
     env_new_plain := Returns tt; env_start := Returns tt |}.

(** A capture in progress: recorder 0 is recording and one chunk has
    arrived. *)
Definition sample_chunk : Blob :=
  {| blob_data := "abc"; blob_type := "audio/webm;codecs=opus" |}.

Definition capturing_world : World :=
  run (recorder_ondataavailable (Some sample_chunk))
    (run recorder_onstart (run (startRecording recording_browser) fresh_world)).

(** What belongs to the capture in progress: the recorder in use, the
    chunks buffered so far, the recorders and their states, the pending
    timeouts, and the two status flags. *)
Definition capture_session (w : World)
  : option nat * list Blob * list RecordingState * nat * bool * string :=
  (mediaRecorderRef (ui w), audioChunksRef (ui w), recorders w, timers w,
   listening (ui w), uploadStatus (ui w)).

(** The microphone button is pressed twice in a row in a browser that
    records, then both timeouts expire. *)
Definition two_sessions : World :=
  run (startRecording recording_browser)
    (run (startRecording recording_browser) fresh_world).

Definition two_sessions_timed_out : World :=
  run timeout_fires (run timeout_fires two_sessions).

(** A rendered entry is a link with a non-empty text and a non-empty
    target. *)
Definition resolves_to_link (entry : option (jsval * jsval)) : Prop :=
  exists label url : string,
    entry = Some (JStr label, JStr url) /\ label <> "" /\ url <> "".

(** Every entry of the normalised [actions] is rendered as such a link. *)
Definition all_entries_resolve (a : ActionsField) : Prop :=
  Forall resolves_to_link (render_actions (normalize_actions a)).

(** The exchanges a handler added to the log. *)
Definition gained (before after added : list Exchange) : Prop :=
  after = before ++ added.

(** The log gains exactly two exchanges: the user's utterance, then the
    assistant's reply. *)
Definition gains_user_then_assistant
    (before after : list Exchange) (reply : string) : Prop :=
  exists utterance,
    gained before after [user_says utterance; assistant_says reply].

(** The log gains exactly one exchange, of role [error]. *)
Definition gains_one_error (before after : list Exchange) : Prop :=
  exists message, gained before after [error_says message].

End Scenario.

(** ** More of [VoiceAssistant]: recognition callbacks and event runs *)

Module Events.
Import JS I18n Model Json Component.

(** [recognition.onstart], [recognition.onend], [recognition.onerror] *)
Definition recognition_onstart : Handler unit := setListening true.

Definition recognition_onend : Handler unit := setListening false.

Definition recognition_onerror (ev : string) : Handler unit :=
  (console_error "SpeechRecognition error:" ev ;; setListening false)%H.

(** [recognition.onresult]; [transcript] is
    [event?.results?.[0]?.[0]?.transcript]. *)
Definition recognition_onresult (transcript : option string) : Handler unit :=
  let text := or_str transcript "" in
  if str_truthy text then setCommand text else ret tt.

(** The language selector, [onChange={(e) => setLanguage(e.target.value)}],
    followed by the effect on [language]; setting the language it
    already has changes no state, and the effect does not run. *)
Definition change_language (selected : string) (hasSpeechRecognition : bool)
  : Handler unit :=
  (st <- render ;;
   if String.eqb selected (language st) then ret tt
   else
     update (with_language selected) ;;
     bind_recognition hasSpeechRecognition)%H.

(** [dataavailable] events, delivered one after the other. *)
Fixpoint deliver (events : list (option Blob)) : Handler unit :=
  match events with
  | [] => ret tt
  | data :: rest => (recorder_ondataavailable data ;; deliver rest)%H
  end.

(** The chunks [recorder.ondataavailable] keeps: those with data. *)
Definition kept_chunk (data : option Blob) : option Blob :=
  match data with
  | Some blob => if (0 <? blob_size blob)%nat then Some blob else None
  | None => None
  end.

Definition returns {A : Type} (c : Completion A) : bool :=
  match c with
  | Returns _ => true
  | Throws _ => false
  end.

(** The browser lets [startRecording] go all the way to
    [recorder.start()]. *)
Definition starts (env : Env) : bool :=
  env_getUserMedia env && env_MediaRecorder env && returns (env_stream env)
  && (returns (env_new_with_options env) || returns (env_new_plain env))
  && returns (env_start env).


(** The browser lets [startRecording] construct a recorder. *)
Definition constructs (env : Env) : bool :=
  env_getUserMedia env && env_MediaRecorder env && returns (env_stream env)
  && (returns (env_new_with_options env) || returns (env_new_plain env)).

(** The key of the message [startRecording] shows when it does not get
    to the end: by the test or the [catch] that stops it. *)
Definition refusal_key (env : Env) : string :=
  if negb (env_getUserMedia env) then "micNotSupported"
  else if negb (env_MediaRecorder env) then "recordingNotSupported"
  else if negb (returns (env_stream env)) then "micAccessError"
  else if negb (returns (env_new_with_options env) || returns (env_new_plain env))
  then "recordingNotSupported"
  else "micAccessError".


(** A string or [undefined]. *)
Definition textual (v : jsval) : bool :=
  match v with
  | JStr _ | JUndefined => true
  | _ => false
  end.

(** A name made of decimal digits only; the array indices are among
    these names, and an object enumerates them before its other
    properties. *)
Fixpoint digits_only (name : string) : bool :=
  match name with
  | EmptyString => true
  | String c rest =>
      ((48 <=? byte c)%N && (byte c <=? 57)%N) && digits_only rest
  end.

(** The properties of a parsed JSON object come in the order they are
    written when their names are distinct and none is made of digits
    only (see [own_properties]). *)
Definition written_order {A : Type} (props : list (string * A)) : Prop :=
  NoDup props.*1 /\ Forall (fun p => digits_only p.1 = false) props.

(** The number a name made of digits writes. *)
Fixpoint digits_value (acc : N) (name : string) : N :=
  match name with
  | EmptyString => acc
  | String c rest => digits_value (10 * acc + (byte c - 48))%N rest
  end.

(** An array index: the canonical decimal form of an integer below
    2^32 - 1. *)
Definition array_index (name : string) : option N :=
  match name with
  | EmptyString => None
  | String c rest =>
      if digits_only name && (negb (byte c =? 48)%N || String.eqb rest "")
      then
        let value := digits_value 0 name in
        if (value <? 2 ^ 32 - 1)%N then Some value else None
      else None
  end.

(** Defining the property [name] of an object: a name it already has
    keeps its place and takes the new value, a new name goes last. *)
Fixpoint define_property {A : Type} (props : list (string * A))
    (name : string) (value : A) : list (string * A) :=
  match props with
  | [] => [(name, value)]
  | (n, v) :: rest =>
      if String.eqb n name then (n, value) :: rest
      else (n, v) :: define_property rest name value
  end.

(** Insertion into properties sorted by ascending index. *)
Fixpoint insert_by_index {A : Type} (p : string * A)
    (sorted : list (string * A)) : list (string * A) :=
  match sorted with
  | [] => [p]
  | q :: rest =>
      if (default 0 (array_index p.1) <=? default 0 (array_index q.1))%N
      then p :: q :: rest
      else q :: insert_by_index p rest
  end.

(** The own properties, in enumeration order, of the object that
    [JSON.parse] makes of a text whose members are written in the order
    of [members]: the array indices first, in ascending order, then the
    other names in the order they were first written. *)
Definition own_properties {A : Type} (members : list (string * A))
  : list (string * A) :=
  let defined :=
    foldl (fun props member => define_property props member.1 member.2)
      [] members in
  foldr insert_by_index []
    (List.filter (fun p => bool_decide (is_Some (array_index p.1))) defined)
  ++ List.filter (fun p => bool_decide (array_index p.1 = None)) defined.

(** The remote call succeeded and its body parsed. *)
Definition parsed_body (outcome : FetchResult) : option Data :=
  match outcome with
  | NetworkError _ => None
  | Responded res => if res_ok res then res_body_json res else None
  end.

End Events.

(** ** Session token: [auth.js], the request interceptor of [api/axios.js]
    and [Login.jsx] *)

Module Auth.
Import JS Model.

(** How a call through axios settles: fulfilled with [res.data], or
    rejected (a status outside 2xx, or no response at all) with
    [err.response?.data] ([undefined] when there is none) and
    [err.message]. *)
Inductive AxiosResult : Type :=
  | Fulfilled (data : jsval)
  | Rejected (response_data : jsval) (message : string).

(** ToString, as the storage applies it to the value it is given.  It
    is ToString on the values of [stored_as_written] below: a number is
    written in decimal, which holds for the integers a double holds
    exactly (from 10^21 on the browser writes an exponent), and an
    object as "[object Object]", which holds for the objects that have
    no property named [toString] or [valueOf]. *)
Fixpoint to_string (v : jsval) : string :=
  match v with
  | JUndefined => "undefined"
  | JNull => "null"
  | JBool true => "true"
  | JBool false => "false"
  | JNum n => pretty n
  | JStr s => s
  | JArr items =>
      let element x :=
        match x with
        | JUndefined | JNull => ""
        | _ => to_string x
        end in
      (fix join (l : list jsval) : string :=
         match l with
         | [] => ""
         | [x] => element x
         | x :: rest => element x +:+ "," +:+ join rest
         end) items
  | JObj _ => "[object Object]"
  end.

(** The tokens whose text in the storage [to_string] gives exactly:
    strings, [undefined], [null], booleans, and the integers below 2^53
    in magnitude. *)
Definition stored_as_written (token : jsval) : bool :=
  match token with
  | JStr _ | JUndefined | JNull | JBool _ => true
  | JNum n => Z.abs n <? 2 ^ 53
  | JArr _ | JObj _ => false
  end.

(** [data.name] where [data] may be [null] or [undefined]: a TypeError
    then. *)
Definition read_prop (data : jsval) (name : string) : Completion jsval :=
  match data with
  | JUndefined | JNull => Throws "TypeError"
  | _ => Returns (get_prop data name)
  end.

Definition token_key : string := "access_token".

(** [export async function login(username, password)]: what it returns
    and the session storage it leaves. *)
Definition login (outcome : AxiosResult) (session : gmap string string)
  : Completion jsval * gmap string string :=
  match outcome with
  | Rejected _ message => (Throws message, session)
  | Fulfilled data =>
      match read_prop data "access_token" with
      | Throws error => (Throws error, session)
      | Returns token =>
          (Returns token, <[token_key := to_string token]> session)
      end
  end.

(** The token a settled login call grants, when it grants one. *)
Definition granted (outcome : AxiosResult) : option jsval :=
  match outcome with
  | Rejected _ _ => None
  | Fulfilled data =>
      match read_prop data "access_token" with
      | Returns token => Some token
      | Throws _ => None
      end
  end.

(** [export function logout()] *)
Definition logout (session : gmap string string) : gmap string string :=
  delete token_key session.

(** [export function getToken()] ([null] is [None]). *)
Definition getToken (session : gmap string string) : option string :=
  session !! token_key.

(** The headers [axios.create] gives every request. *)
Definition default_headers : gmap string string :=
  {[ "Content-Type" := "application/json" ]}.

(** [api.interceptors.request.use(config => ...)], on the headers of the
    request. *)
Definition request_interceptor (session : gmap string string)
    (headers : gmap string string) : gmap string string :=
  match session !! token_key with
  | Some token =>
      if str_truthy token
      then <["Authorization" := "Bearer " +:+ token]> headers
      else headers
  | None => headers
  end.

(** The page of [Login.jsx]: its hooks, the session storage, the address
    of the window, and the headers of the requests posted to
    [/auth/login]. *)
Record LoginPage : Type := {
  username : string;
  password : string;
  error : jsval;
  loading : bool;
  session : gmap string string;
  location_href : string;
  posted : list (string * string * gmap string string)
}.

(** The login page as first rendered, with the form filled, in a
    session that may hold a token. *)
Definition login_form (user pass : string) (stored : gmap string string)
  : LoginPage :=
  {| username := user; password := pass; error := JNull; loading := false;
     session := stored; location_href := "/login"; posted := [] |}.

(** [handleSubmit] *)
Definition handleSubmit (outcome : AxiosResult) (p : LoginPage) : LoginPage :=
  let request :=
    (username p, password p, request_interceptor (session p) default_headers) in
  let posted' := posted p ++ [request] in
  let failed (detail : jsval) :=
    {| username := username p; password := password p;
       error := val_or detail (JStr "Erro no login"); loading := false;
       session := session p; location_href := location_href p;
       posted := posted' |} in
  match outcome with
  | Rejected response_data _ => failed (get_prop response_data "detail")
  | Fulfilled data =>
      match read_prop data "access_token" with
      | Throws _ => failed JUndefined
      | Returns token =>
          {| username := username p; password := password p;
             error := JNull; loading := false;
             session := <[token_key := to_string token]> (session p);
             location_href := "/protected"; posted := posted' |}
      end
  end.

End Auth.

(** ** The earlier component [Assistant.jsx] *)

Module LegacyAssistant.
Import JS Model Component.

Record Page : Type := {
  inputText : string;
  responseText : string;
  actions : ActionsField;
  sent : list string;
  logged : list string
}.

(** [data.actions || {}] *)
Definition actions_or_empty (a : ActionsField) : ActionsField :=
  match a with
  | ActAbsent => ActMap []
  | present => present
  end.

(** [handleSendCommand]: the request carries [inputText] as it is, and
    the status of the response is not looked at. *)
Definition handleSendCommand (outcome : FetchResult) (p : Page) : Page :=
  let sent' := sent p ++ [inputText p] in
  let failed (error : string) :=
    {| inputText := inputText p;
       responseText := "Erro ao processar o comando.";
       actions := actions p; sent := sent';
       logged := logged p ++ ["Erro ao enviar comando:" +:+ " " +:+ error] |} in
  match outcome with
  | NetworkError message => failed message
  | Responded res =>
      match res_body_json res with
      | None => failed "SyntaxError"
      | Some data =>
          {| inputText := inputText p;
             responseText := or_str (data_response data) "Sem resposta.";
             actions := actions_or_empty (data_actions data);
             sent := sent'; logged := logged p |}
      end
  end.

(** The page as first rendered, with [text] typed in the field. *)
Definition typed_page (text : string) : Page :=
  {| inputText := text; responseText := ""; actions := ActMap [];
     sent := []; logged := [] |}.

(** [Object.entries(actions)]: the properties of a mapping, the elements
    of a list under their indices. *)
Definition entries (a : ActionsField) : list (string * jsval) :=
  match a with
  | ActMap props => props
  | ActList items => imap (fun i item => (pretty i, item)) items
  | ActAbsent => []
  end.

(** The links of the actions area, [([key, url]) => <a href={url}>{key}</a>]:
    text and target. *)
Definition links (a : ActionsField) : list (jsval * jsval) :=
  (fun p => (JStr p.1, p.2)) <$> entries a.

End LegacyAssistant.

(** ** The stand-alone recorder, [frontend/src/RecorderUpload.jsx] *)

Module Uploader.
Import JS Model Component.

(** The form posted to [/assistant/process/upload]. *)
Record Upload : Type := {
  upload_url : string;
  upload_file : Blob;
  upload_user_id : string
}.

Record Page : Type := {
  recording_flag : bool;
  response_data : option Data;
  recorderRef : option nat;
  chunksRef : list Blob;
  media_recorders : list RecordingState;
  uploads : list Upload
}.

Definition with_recording (v : bool) (p : Page) : Page :=
  {| recording_flag := v; response_data := response_data p;
     recorderRef := recorderRef p; chunksRef := chunksRef p;
     media_recorders := media_recorders p; uploads := uploads p |}.

(** [start]: [stream], [constructed] and [started] tell how
    [getUserMedia], [new MediaRecorder(stream)] and [mr.start()] end.
    Nothing is caught. *)
Definition start (stream constructed started : Completion unit) (p : Page)
  : Completion unit * Page :=
  match stream, constructed with
  | Throws error, _ => (Throws error, p)
  | Returns _, Throws error => (Throws error, p)
  | Returns _, Returns _ =>
      let mr := length (media_recorders p) in
      let p1 :=
        {| recording_flag := recording_flag p; response_data := response_data p;
           recorderRef := Some mr; chunksRef := [];
           media_recorders := media_recorders p ++ [inactive];
           uploads := uploads p |} in
      match started with
      | Throws error => (Throws error, p1)
      | Returns _ =>
          (Returns tt,
           {| recording_flag := true; response_data := response_data p;
              recorderRef := Some mr; chunksRef := [];
              media_recorders := media_recorders p ++ [recording];
              uploads := uploads p |})
      end
  end.









End Uploader.

(** ** The protected page, [ProtectedData.jsx] *)

Module Protected.
Import JS Model Auth.

Record Page : Type := { data : jsval; error : jsval }.

(** [useState(null)] twice. *)
Definition initial : Page := {| data := JNull; error := JNull |}.

(** The effect: [api.get("/protected/data").then(...).catch(...)]. *)
Definition loaded (outcome : AxiosResult) (p : Page) : Page :=
  match outcome with
  | Fulfilled d => {| data := d; error := error p |}
  | Rejected response_data message =>
      {| data := data p; error := val_or response_data (JStr message) |}
  end.

(** What the component returns. *)
Inductive View : Type :=
  | ErrorView (shown : jsval)
  | LoadingView
  | DataView (shown : jsval).

Definition view (p : Page) : View :=
  if val_truthy (error p) then ErrorView (error p)
  else if negb (val_truthy (data p)) then LoadingView
  else DataView (data p).

End Protected.

(** ** Property reads with what every object inherits *)

Module Inherited.
Import JS I18n.

(** The names of the members of [Object.prototype]. *)
Definition Object_prototype_names : list string :=
  [ "constructor"; "__proto__"; "hasOwnProperty"; "isPrototypeOf";
    "propertyIsEnumerable"; "toLocaleString"; "toString"; "valueOf";
    "__defineGetter__"; "__defineSetter__"; "__lookupGetter__";
    "__lookupSetter__" ].

Definition inherited (name : string) : bool :=
  existsb (String.eqb name) Object_prototype_names.

(** What a read can give: a primitive, or a function or object of the
    engine, named by the path that leads to it from [Object.prototype]. *)
Inductive member : Type :=
  | Undefined
  | Null
  | Flag (b : bool)
  | Number (n : Z)
  | Text (s : string)
  | Builtin (path : list string).

Definition member_truthy (v : member) : bool :=
  match v with
  | Undefined | Null => false
  | Flag b => b
  | Number n => negb (n =? 0)
  | Text s => str_truthy s
  | Builtin _ => true
  end.

(** The properties of the members of [Object.prototype]:
    [engine name key] is the read [Object.prototype[name][key]], which
    throws when the property is an accessor that throws. *)
Definition Engine : Type := string -> string -> Completion member.

(** An engine whose members have no property worth a name. *)
Definition bare_engine : Engine := fun _ _ => Returns Undefined.

(** [table[key]] on a table of [translations]: its own entry, else the
    member it inherits. *)
Definition read_table (table : list (string * string)) (key : string) : member :=
  match get_own table key with
  | Some s => Text s
  | None => if inherited key then Builtin [key] else Undefined
  end.

(** [translations[lang] && translations[lang][key]]: for a [lang] that
    names a member of [Object.prototype], [translations[lang]] is that
    member, which is truthy. *)
Definition read_entry (engine : Engine) (lang key : string) : Completion member :=
  match get_own translations lang with
  | Some table => Returns (read_table table key)
  | None => if inherited lang then engine lang key else Returns Undefined
  end.

(** The expression of [t], with the inherited members. *)
Definition t_source (engine : Engine) (lang key : string) : Completion member :=
  match read_entry engine lang key with
  | Throws error => Throws error
  | Returns own =>
      if member_truthy own then Returns own
      else match get_own translations "en" with
           | None => Throws "TypeError"
           | Some en =>
               let fallback := read_table en key in
               if member_truthy fallback then Returns fallback
               else Returns (Text key)
           end
  end.

End Inherited.

(** * Properties *)

Import JS I18n Model Json Component Scenario.

(** ** Strings *)

Section Strings.

Lemma string_app_nil (b : string) : "" +:+ b = b.
Proof. reflexivity. Qed.

Lemma string_app_cons (x : ascii) (a b : string) :
  String x a +:+ b = String x (a +:+ b).
Proof. reflexivity. Qed.

Lemma string_app_assoc (a b c : string) : (a +:+ b) +:+ c = a +:+ (b +:+ c).
Proof.
  induction a as [|x a IH]; [reflexivity|].
  rewrite !string_app_cons. f_equal. exact IH.
Qed.

Lemma string_app_length (a b : string) :
  String.length (a +:+ b) = (String.length a + String.length b)%nat.
Proof.
  induction a as [|x a IH]; [reflexivity|].
  rewrite string_app_cons. simpl. f_equal. exact IH.
Qed.

Lemma str_truthy_spec (s : string) : str_truthy s = true <-> s <> "".
Proof.
  unfold str_truthy. destruct (String.eqb_spec s ""); simpl; split; congruence.
Qed.

Lemma str_falsy_spec (s : string) : str_truthy s = false <-> s = "".
Proof.
  unfold str_truthy. destruct (String.eqb_spec s ""); simpl; split; congruence.
Qed.

End Strings.

(** ** Localisation *)

Section Localisation.

Lemma get_own_In {A : Type} (o : list (string * A)) (k : string) (v : A) :
  get_own o k = Some v -> In (k, v) o.
Proof.
  induction o as [|[name x] o IH]; simpl; [discriminate|].
  destruct (String.eqb_spec name k) as [->|_].
  - intros [= ->]. now left.
  - intros H. right. now apply IH.
Qed.

(** No entry of any table is the empty string. *)
Lemma tables_entries_truthy :
  forallb (fun p => forallb (fun e => str_truthy e.2) p.2) translations = true.
Proof. vm_compute. reflexivity. Qed.

Lemma own_entry_truthy (lang key v : string) :
  own_entry lang key = Some v -> str_truthy v = true.
Proof.
  unfold own_entry.
  destruct (get_own translations lang) as [table|] eqn:E; [|discriminate].
  intros Hk. apply get_own_In in E. apply get_own_In in Hk.
  pose proof tables_entries_truthy as T.
  rewrite forallb_forall in T. specialize (T _ E). simpl in T.
  rewrite forallb_forall in T. exact (T _ Hk).
Qed.

Lemma table_entry_own (lang key : string) : table_entry lang key = own_entry lang key.
Proof.
  unfold table_entry, own_entry. now destruct (get_own translations lang).
Qed.

Lemma translations_default : get_own translations "en" = Some translations_en.
Proof. reflexivity. Qed.

(** [t_run] computes the resolver of the specification. *)
Lemma t_run_resolve (lang key : string) :
  t_run lang key = Returns (resolve_spec lang key).
Proof.
  unfold t_run, resolve_spec.
  rewrite (table_entry_own lang key), (table_entry_own default_language key).
  destruct (own_entry lang key) as [v|] eqn:Own.
  - now rewrite (own_entry_truthy _ _ _ Own).
  - pose proof (own_entry_truthy default_language key) as T.
    unfold default_entry, own_entry, default_language in *.
    rewrite translations_default in *.
    destruct (get_own translations_en key) as [d|]; cbn [or_str]; [|reflexivity].
    now rewrite (T d eq_refl).
Qed.

Lemma t_run_returns_t (lang key : string) : t_run lang key = Returns (t lang key).
Proof. unfold t. now rewrite t_run_resolve. Qed.

Lemma t_resolve (lang key : string) : t lang key = resolve_spec lang key.
Proof. unfold t. now rewrite t_run_resolve. Qed.

Lemma resolve_spec_nonempty (lang key : string) :
  is_Some (table_entry default_language key) -> resolve_spec lang key <> "".
Proof.
  intros [d Hd]. unfold resolve_spec. rewrite Hd.
  destruct (table_entry lang key) as [v|] eqn:E.
  - rewrite table_entry_own in E. now apply str_truthy_spec, (own_entry_truthy lang key).
  - rewrite table_entry_own in Hd.
    now apply str_truthy_spec, (own_entry_truthy default_language key).
Qed.

(** The resolver with the inherited members. *)

Lemma supported_not_inherited :
  forallb (fun lang => negb (Inherited.inherited lang)) supported_languages = true.
Proof. vm_compute. reflexivity. Qed.

Lemma default_keys_not_inherited :
  forallb (fun e => negb (Inherited.inherited e.1)) translations_en = true.
Proof. vm_compute. reflexivity. Qed.

Lemma read_table_own (table : list (string * string)) (key : string) :
  Inherited.inherited key = false ->
  Inherited.read_table table key
  = match get_own table key with
    | Some s => Inherited.Text s
    | None => Inherited.Undefined
    end.
Proof. intros H. unfold Inherited.read_table. now rewrite H. Qed.

(** [t] throws only when the language code names a member of
    [Object.prototype] and the read of [key] on that member throws. *)
Lemma t_source_throws (engine : Inherited.Engine) (lang key error : string) :
  Inherited.t_source engine lang key = Throws error <->
  Inherited.inherited lang = true /\ engine lang key = Throws error.
Proof.
  pose proof supported_not_inherited as S. rewrite forallb_forall in S.
  assert (Own : forall table, get_own translations lang = Some table ->
            Inherited.inherited lang = false).
  { intros table E. apply negb_true_iff, S.
    apply get_own_In in E.
    assert (In lang (translations.*1)) as I by (apply in_map_iff; now exists (lang, table)).
    revert I. generalize lang. vm_compute. tauto. }
  unfold Inherited.t_source, Inherited.read_entry. rewrite translations_default.
  destruct (get_own translations lang) as [table|] eqn:E.
  - rewrite (Own table eq_refl).
    split; [|now intros [? _]].
    destruct (Inherited.member_truthy (Inherited.read_table table key));
      [discriminate|].
    now destruct (Inherited.member_truthy (Inherited.read_table translations_en key)).
  - destruct (Inherited.inherited lang).
    + destruct (engine lang key) as [own|e].
      * split; [|now intros [_ ?]].
        destruct (Inherited.member_truthy own); [discriminate|].
        now destruct (Inherited.member_truthy
                        (Inherited.read_table translations_en key)).
      * split; [now intros [= ->]|now intros [_ [= ->]]].
    + cbn. split; [|now intros [? _]].
      now destruct (Inherited.member_truthy
                      (Inherited.read_table translations_en key)).
Qed.

Lemma t_source_returns (engine : Inherited.Engine) (lang key : string) :
  Inherited.inherited lang = false ->
  exists v, Inherited.t_source engine lang key = Returns v.
Proof.
  intros L.
  destruct (Inherited.t_source engine lang key) as [v|error] eqn:E; [eauto|].
  apply t_source_throws in E as [I _]. congruence.
Qed.

Lemma t_source_own_entry (engine : Inherited.Engine) (lang key v : string) :
  table_entry lang key = Some v ->
  Inherited.t_source engine lang key = Returns (Inherited.Text v).
Proof.
  rewrite table_entry_own. intros Own.
  pose proof (own_entry_truthy _ _ _ Own) as T.
  unfold Inherited.t_source, Inherited.read_entry, Inherited.read_table.
  unfold own_entry in Own.
  destruct (get_own translations lang) as [table|]; [|discriminate].
  rewrite Own. cbn. now rewrite T.
Qed.

Lemma t_source_own_names (engine : Inherited.Engine) (lang key : string) :
  Inherited.inherited lang = false -> Inherited.inherited key = false ->
  Inherited.t_source engine lang key = Returns (Inherited.Text (resolve_spec lang key)).
Proof.
  intros L K. unfold resolve_spec.
  destruct (table_entry lang key) as [v|] eqn:Own.
  { now apply t_source_own_entry. }
  rewrite table_entry_own in Own.
  pose proof (own_entry_truthy default_language key) as T.
  rewrite (table_entry_own default_language key).
  unfold Inherited.t_source, Inherited.read_entry, own_entry, default_language in *.
  rewrite translations_default in *. rewrite L.
  assert (E : match get_own translations lang with
              | Some table => Returns (Inherited.read_table table key)
              | None => Returns Inherited.Undefined
              end = Returns Inherited.Undefined).
  { destruct (get_own translations lang) as [table|]; [|reflexivity].
    rewrite read_table_own by exact K. now rewrite Own. }
  rewrite E, read_table_own by exact K.
  cbv beta iota delta [Inherited.member_truthy].
  destruct (get_own translations_en key) as [d|]; cbn; [|reflexivity].
  now rewrite (T d eq_refl).
Qed.

(** Outside the names of [Object.prototype], [t] is the source. *)
Lemma t_source_agrees (engine : Inherited.Engine) (lang key : string) :
  Inherited.inherited lang = false -> Inherited.inherited key = false ->
  Inherited.t_source engine lang key = Returns (Inherited.Text (t lang key)).
Proof. intros L K. rewrite t_resolve. now apply t_source_own_names. Qed.

(** C4 (as amended).  For every language code and key, [t] returns the
    entry of the language's table when that table has one.  When the
    language code is not the name of a member of [Object.prototype],
    [t] returns (it does not throw); for a language code that is one,
    it throws exactly when the read of the key on that member throws.
    When neither the language code nor the key is the name of a member
    of [Object.prototype], it returns the entry of the language's table
    when present, otherwise the entry of the default ("en") table,
    otherwise the key itself.  For every supported language and every
    key of the default table the value returned is a string that is not
    empty. *)
Theorem t_source_resolves (engine : Inherited.Engine) (lang key : string) :
  (Inherited.inherited lang = false ->
     exists v, Inherited.t_source engine lang key = Returns v)
  /\ (forall error,
        Inherited.t_source engine lang key = Throws error <->
        Inherited.inherited lang = true /\ engine lang key = Throws error)
  /\ (forall v, table_entry lang key = Some v ->
        Inherited.t_source engine lang key = Returns (Inherited.Text v))
  /\ (Inherited.inherited lang = false -> Inherited.inherited key = false ->
        Inherited.t_source engine lang key
        = Returns (Inherited.Text (resolve_spec lang key))
        /\ (forall d, table_entry lang key = None ->
              table_entry default_language key = Some d ->
              Inherited.t_source engine lang key = Returns (Inherited.Text d))
        /\ (table_entry lang key = None ->
            table_entry default_language key = None ->
            Inherited.t_source engine lang key = Returns (Inherited.Text key)))
  /\ (In lang supported_languages ->
      is_Some (table_entry default_language key) ->
      exists s, Inherited.t_source engine lang key = Returns (Inherited.Text s)
                /\ s <> "").
Proof.
  split; [apply t_source_returns|].
  split; [intros error; apply t_source_throws|].
  split; [intros v; apply t_source_own_entry|].
  split.
  - intros L K. rewrite (t_source_own_names engine lang key L K).
    unfold resolve_spec. repeat split.
    + intros d -> ->. reflexivity.
    + intros -> ->. reflexivity.
  - intros Supported Default.
    pose proof supported_not_inherited as S. rewrite forallb_forall in S.
    apply S, negb_true_iff in Supported.
    assert (K : Inherited.inherited key = false).
    { destruct Default as [d D]. rewrite table_entry_own in D.
      unfold own_entry, default_language in D.
      rewrite translations_default in D. apply get_own_In in D.
      pose proof default_keys_not_inherited as E. rewrite forallb_forall in E.
      now apply E, negb_true_iff in D. }
    exists (resolve_spec lang key). split.
    + now apply t_source_own_names.
    + now apply resolve_spec_nonempty.
Qed.

Lemma t_source_resolves_witness :
  Inherited.t_source Inherited.bare_engine "ar" "nokey"
  = Returns (Inherited.Text "nokey")
  /\ Inherited.t_source Inherited.bare_engine "xx" "title"
     = Returns (Inherited.Text "My Voice Assistant")
  /\ exists s, Inherited.t_source Inherited.bare_engine "ar" "title"
               = Returns (Inherited.Text s) /\ s <> "".
Proof.
  split; [|split].
  - destruct (t_source_resolves Inherited.bare_engine "ar" "nokey")
      as (_ & _ & _ & N & _).
    destruct (N eq_refl eq_refl) as (_ & _ & K). apply K; reflexivity.
  - destruct (t_source_resolves Inherited.bare_engine "xx" "title")
      as (_ & _ & _ & N & _).
    destruct (N eq_refl eq_refl) as (_ & D & _). apply D; reflexivity.
  - destruct (t_source_resolves Inherited.bare_engine "ar" "title")
      as (_ & _ & _ & _ & S).
    apply S; [cbn; auto 10 | eexists; reflexivity].
Defined.

(** The key "constructor" is in no table, and what [t] returns for it
    is not the key: it is the member every table inherits. *)
Lemma t_source_inherited_key :
  table_entry "pt" "constructor" = None
  /\ table_entry default_language "constructor" = None
  /\ Inherited.t_source Inherited.bare_engine "pt" "constructor"
     = Returns (Inherited.Builtin ["constructor"])
  /\ Inherited.t_source Inherited.bare_engine "pt" "constructor"
     <> Returns (Inherited.Text "constructor").
Proof. repeat split; vm_compute; discriminate. Qed.

End Localisation.

(** ** The stored history reads back *)

Section Persistence.

Lemma expect_app (lit s : string) : expect lit (lit +:+ s) = Some s.
Proof.
  induction lit as [|c lit IH]; [reflexivity|].
  rewrite string_app_cons. simpl. now rewrite Ascii.eqb_refl.
Qed.

(** Reading back one quoted character. *)
Lemma parse_chars_quote_char (c : ascii) (tail : string) :
  parse_chars (quote_char c +:+ tail) = prepend (String c "") (parse_chars tail).
Proof.
  destruct c as [b0 b1 b2 b3 b4 b5 b6 b7].
  destruct b0, b1, b2, b3, b4, b5, b6, b7; reflexivity.
Qed.

Lemma parse_chars_quote_chars (s rest : string) :
  parse_chars (quote_chars s +:+ String dquote rest) = Some (s, rest).
Proof.
  induction s as [|c s IH].
  - reflexivity.
  - change (quote_chars (String c s)) with (quote_char c +:+ quote_chars s).
    rewrite string_app_assoc, parse_chars_quote_char, IH. reflexivity.
Qed.

Lemma parse_string_quote (s rest : string) :
  parse_string (QuoteJSONString s +:+ rest) = Some (s, rest).
Proof.
  unfold QuoteJSONString. rewrite string_app_cons, string_app_assoc.
  rewrite string_app_cons, string_app_nil.
  unfold parse_string. rewrite Ascii.eqb_refl. apply parse_chars_quote_chars.
Qed.

Lemma parse_member_quote (name v rest : string) :
  parse_member name (QuoteJSONString name +:+ ":" +:+ QuoteJSONString v +:+ rest)
  = Some (v, rest).
Proof.
  unfold parse_member. rewrite parse_string_quote, String.eqb_refl.
  rewrite expect_app. apply parse_string_quote.
Qed.

Lemma parse_exchange_stringify (e : Exchange) (rest : string) :
  parse_exchange (stringify_exchange e +:+ rest) = Some (e, rest).
Proof.
  unfold stringify_exchange, parse_exchange.
  rewrite !string_app_assoc.
  rewrite expect_app, parse_member_quote, expect_app, parse_member_quote, expect_app.
  now destruct e.
Qed.

Lemma stringify_exchange_head (e : Exchange) :
  exists body, stringify_exchange e = String "{" body.
Proof. unfold stringify_exchange. rewrite string_app_cons. eauto. Qed.

Lemma join_comma_cons (a b : string) (rest : list string) :
  join_comma (a :: b :: rest) = a +:+ "," +:+ join_comma (b :: rest).
Proof. reflexivity. Qed.

Lemma join_comma_head (e : Exchange) (h : list Exchange) (tail : string) :
  exists body,
    join_comma (stringify_exchange <$> (e :: h)) +:+ tail = String "{" body.
Proof.
  destruct (stringify_exchange_head e) as [body Hb].
  destruct h as [|e' h]; rewrite fmap_cons.
  - simpl join_comma. rewrite Hb, string_app_cons. eauto.
  - rewrite fmap_cons, join_comma_cons, Hb, !string_app_cons. eauto.
Qed.

Lemma join_comma_length (e : Exchange) (h : list Exchange) :
  (length h < String.length (join_comma (stringify_exchange <$> (e :: h))))%nat.
Proof.
  revert e. induction h as [|e' h IH]; intros e; rewrite fmap_cons.
  - simpl join_comma. destruct (stringify_exchange_head e) as [body ->]. simpl. lia.
  - rewrite fmap_cons, join_comma_cons, !string_app_length.
    specialize (IH e'). rewrite fmap_cons in IH.
    change (String.length ",") with 1%nat. simpl length. lia.
Qed.

Lemma parse_elements_step (fuel : nat) (s : string) :
  parse_elements (S fuel) s =
  match parse_exchange s with
  | Some (e, String c s1) =>
      if Ascii.eqb c ","%char then
        match parse_elements fuel s1 with
        | Some (es, s2) => Some (e :: es, s2)
        | None => None
        end
      else if Ascii.eqb c "]"%char then Some ([e], s1)
      else None
  | _ => None
  end.
Proof. reflexivity. Qed.

(** With one unit of fuel per element, the elements read back. *)
Lemma parse_elements_join (h : list Exchange) :
  forall (e : Exchange) (fuel : nat) (rest : string),
    (length h < fuel)%nat ->
    parse_elements fuel
      (join_comma (stringify_exchange <$> (e :: h)) +:+ String "]" rest)
    = Some (e :: h, rest).
Proof.
  induction h as [|e' h IH]; intros e fuel rest Hfuel;
    (destruct fuel as [|fuel]; [simpl in Hfuel; lia|]);
    rewrite parse_elements_step, fmap_cons.
  - simpl join_comma. rewrite parse_exchange_stringify. reflexivity.
  - rewrite fmap_cons, join_comma_cons, !string_app_assoc.
    rewrite parse_exchange_stringify, string_app_cons, string_app_nil.
    change (Ascii.eqb "," ",") with true. cbv iota.
    rewrite <- fmap_cons, IH by (simpl in Hfuel; lia). reflexivity.
Qed.

(** [JSON.parse(JSON.stringify(history))] gives the history back. *)
Lemma parse_history_stringify (h : list Exchange) :
  parse_history (stringify_history h) = Some h.
Proof.
  destruct h as [|e h]; [reflexivity|].
  unfold stringify_history, parse_history. rewrite expect_app.
  destruct (join_comma_head e h "]") as [body Hb].
  pose proof (join_comma_length e h) as Hlen.
  pose proof (parse_elements_join h e
    (String.length (join_comma (stringify_exchange <$> (e :: h)) +:+ "]")) "") as P.
  rewrite string_app_length in P. specialize (P ltac:(lia)).
  rewrite <- string_app_length in P.
  rewrite Hb in *. change (Ascii.eqb "{" "]") with false. cbv iota.
  now rewrite P.
Qed.

Lemma stringify_history_truthy (h : list Exchange) :
  str_truthy (stringify_history h) = true.
Proof. reflexivity. Qed.

(** C7.  The text stored for a history parses back to that history,
    and so the effect that persists the history followed by the
    initialiser of the [history] state (a reload) yields the same
    ordered sequence of exchanges. *)
Theorem history_persist_reload (w : World) :
  parse_history (stringify_history (history (ui w))) = Some (history (ui w))
  /\ initial_history (localStorage (run persist_history w))
     = Returns (history (ui w)).
Proof.
  split; [apply parse_history_stringify|].
  unfold initial_history, run, persist_history. simpl.
  rewrite lookup_insert_eq, stringify_history_truthy, parse_history_stringify.
  reflexivity.
Qed.

End Persistence.

(** ** Reasoning about handlers *)

#[local] Arguments t : simpl never.
#[local] Arguments trim : simpl never.
#[local] Arguments pretty : simpl never.

(** Unfolds a handler down to the record updates it performs. *)
Ltac step_handler :=
  unfold run, bind, try_catch, try_finally, render, ret, throw,
    setCommand, setResponse, setAudioUrl, setActions, setListening,
    setFeedbackMessage, setFeedbackRating, setFeedbackStatus,
    setUploadStatus, setHistory, update, console_error, fetch, check_ok,
    res_json;
  cbn.

Lemma truthy_Some (s : string) : s <> "" -> truthy (Some s) = true.
Proof. intros H. now apply str_truthy_spec. Qed.

Lemma or_str_Some (s fallback : string) : s <> "" -> or_str (Some s) fallback = s.
Proof. intros H. unfold or_str. now rewrite (proj2 (str_truthy_spec s) H). Qed.

(** ** Text commands *)

Section TextCommand.

(** C10.  Sending a command that is empty after trimming does nothing:
    the handler returns with the whole state as it was (the command
    field, the response, the audio reference, the actions and the
    history included), nothing was sent and nothing was logged. *)
Theorem handleSendCommand_blank_noop (w : World) (outcome : FetchResult) :
  trim (command (ui w)) = "" -> handleSendCommand outcome w = (Returns tt, w).
Proof.
  intros Blank. unfold handleSendCommand. step_handler.
  rewrite Blank. reflexivity.
Qed.

Lemma handleSendCommand_blank_noop_witness :
  handleSendCommand server_error (typed "   ") = (Returns tt, typed "   ").
Proof. apply handleSendCommand_blank_noop. vm_compute. reflexivity. Defined.

End TextCommand.

(** ** The log after a call *)

Section SuccessfulCall.

Variables (res : Response) (data : Data) (reply : string).
Hypothesis Ok : res_ok res = true.
Hypothesis Json : res_body_json res = Some data.
Hypothesis Reply : data_response data = Some reply.
Hypothesis Nonempty : reply <> "".

(** Text: the log holds the trimmed command and then the reply. *)
Lemma handleSendCommand_success (w : World) :
  trim (command (ui w)) <> "" ->
  history (ui (run (handleSendCommand (Responded res)) w))
  = history (ui w) ++ [user_says (trim (command (ui w))); assistant_says reply].
Proof.
  intros Text. unfold handleSendCommand. step_handler.
  rewrite (proj2 (str_truthy_spec _) Text). cbn.
  rewrite Ok. cbn. rewrite Json. cbn.
  rewrite Reply, (or_str_Some reply _ Nonempty).
  now rewrite <- app_assoc.
Qed.

(** Audio: the log holds the reply and, when the server sent what it
    heard, that transcription. *)
Lemma recorder_onstop_success (w : World) (language localUrl : string) :
  history (ui (run (recorder_onstop language localUrl (Responded res)) w))
  = history (ui w)
    ++ assistant_says reply
       :: (if truthy (data_input data)
           then [user_says (default "" (data_input data))] else []).
Proof.
  unfold recorder_onstop. step_handler. rewrite Ok. cbn. rewrite Json. cbn.
  clear Json. destruct data as [resp audio acts heard status]. cbn in *.
  subst resp. rewrite (truthy_Some reply Nonempty).
  destruct (truthy audio), (truthy heard), acts; cbn;
    rewrite <- ?app_assoc; reflexivity.
Qed.

End SuccessfulCall.

Section FailedCall.

Variable outcome : FetchResult.
Hypothesis Fails : call_fails outcome = true.

(** Text: the log holds the trimmed command and then the fixed
    connection message. *)
Lemma handleSendCommand_failure (w : World) :
  trim (command (ui w)) <> "" ->
  history (ui (run (handleSendCommand outcome) w))
  = history (ui w)
    ++ [user_says (trim (command (ui w))); error_says connection_error].
Proof.
  intros Text. unfold handleSendCommand. step_handler.
  rewrite (proj2 (str_truthy_spec _) Text). cbn.
  destruct outcome as [message|res]; cbn in *.
  - now rewrite <- app_assoc.
  - destruct (res_ok res); [discriminate|]. cbn. now rewrite <- app_assoc.
Qed.

(** Audio: the log holds the fixed connection message. *)
Lemma recorder_onstop_failure (w : World) (language localUrl : string) :
  history (ui (run (recorder_onstop language localUrl outcome) w))
  = history (ui w) ++ [error_says connection_error].
Proof.
  unfold recorder_onstop. step_handler.
  destruct outcome as [message|res]; cbn in *; [reflexivity|].
  destruct (res_ok res); [discriminate|]. reflexivity.
Qed.

End FailedCall.

(** ** What a submission adds to the conversation log *)

Section ConversationLog.

(** C1 (as amended).  After a call that succeeds with a response text:
    a text submission adds exactly two exchanges, the trimmed command as
    [user] and then the reply as [assistant]; an audio submission adds
    the reply as [assistant] once and, exactly when the body carries a
    non-empty [input], that transcription as [user] once, and nothing
    else. *)
Theorem success_logs_utterance_and_reply (w : World) (res : Response)
    (data : Data) (reply : string) :
  res_ok res = true -> res_body_json res = Some data ->
  data_response data = Some reply -> reply <> "" ->
  (trim (command (ui w)) <> "" ->
     gained (history (ui w))
       (history (ui (run (handleSendCommand (Responded res)) w)))
       [user_says (trim (command (ui w))); assistant_says reply])
  /\ (forall language localUrl : string,
        exists added,
          gained (history (ui w))
            (history (ui (run (recorder_onstop language localUrl (Responded res)) w)))
            added
          /\ added ≡ₚ
               assistant_says reply
               :: (if truthy (data_input data)
                   then [user_says (default "" (data_input data))] else [])).
Proof.
  intros Ok Json Reply Nonempty. unfold gained. split.
  - intros Text.
    exact (handleSendCommand_success res data reply Ok Json Reply Nonempty w Text).
  - intros language localUrl. eexists. split.
    + exact (recorder_onstop_success res data reply Ok Json Reply Nonempty
               w language localUrl).
    + reflexivity.
Qed.

Lemma success_logs_utterance_and_reply_witness :
  gained [] (history (ui (run (handleSendCommand (ok_with reply_R_heard)) (typed " hi "))))
    [user_says "hi"; assistant_says "R"]
  /\ exists added,
       gained []
         (history (ui (run (recorder_onstop "pt" "blob:1" (ok_with reply_R_heard))
                         fresh_world)))
         added
       /\ added ≡ₚ [assistant_says "R"; user_says "hi"].
Proof.
  split.
  - pose proof (success_logs_utterance_and_reply (typed " hi ")
      (ok_response reply_R_heard) reply_R_heard "R"
      eq_refl eq_refl eq_refl ltac:(discriminate)) as [T _].
    specialize (T ltac:(vm_compute; discriminate)).
    vm_compute in T |- *. exact T.
  - pose proof (success_logs_utterance_and_reply fresh_world
      (ok_response reply_R_heard) reply_R_heard "R"
      eq_refl eq_refl eq_refl ltac:(discriminate)) as [_ A].
    specialize (A "pt" "blob:1"). vm_compute in A |- *. exact A.
Defined.

(** The upload of the specification's example,
    [{ response: "R", actions: { "Play": "http://x" } }], adds the reply
    alone: the log does not gain a [user] exchange followed by the
    [assistant] one. *)
Lemma upload_reply_alone_not_two_exchanges :
  ~ gains_user_then_assistant (history (ui fresh_world))
      (history (ui (run (recorder_onstop "pt" "blob:1" (ok_with reply_R)) fresh_world)))
      "R".
Proof. intros [utterance G]. vm_compute in G. discriminate. Qed.

(** C2 (as amended).  After a call that fails (no connection or a
    status outside 2xx): an audio submission adds exactly one exchange,
    of role [error], with the fixed connection message; a text
    submission adds the trimmed command as [user] and then that one
    [error] exchange.  No [assistant] exchange is added, and the text
    added does not depend on the diagnostic of the failure. *)
Theorem failure_logs_connection_error (w : World) (outcome : FetchResult) :
  call_fails outcome = true ->
  (trim (command (ui w)) <> "" ->
     gained (history (ui w))
       (history (ui (run (handleSendCommand outcome) w)))
       [user_says (trim (command (ui w))); error_says connection_error])
  /\ (forall language localUrl : string,
        gained (history (ui w))
          (history (ui (run (recorder_onstop language localUrl outcome) w)))
          [error_says connection_error]).
Proof.
  intros Fails. unfold gained. split.
  - intros Text. exact (handleSendCommand_failure outcome Fails w Text).
  - intros language localUrl.
    exact (recorder_onstop_failure outcome Fails w language localUrl).
Qed.

Lemma failure_logs_connection_error_witness :
  gained [] (history (ui (run (handleSendCommand server_error) (typed "hi"))))
    [user_says "hi"; error_says connection_error]
  /\ gained []
       (history (ui (run (recorder_onstop "pt" "blob:1" (NetworkError "Failed to fetch"))
                       fresh_world)))
       [error_says connection_error].
Proof.
  split.
  - pose proof (failure_logs_connection_error (typed "hi") server_error eq_refl)
      as [T _].
    specialize (T ltac:(vm_compute; discriminate)).
    vm_compute in T |- *. exact T.
  - pose proof (failure_logs_connection_error fresh_world
      (NetworkError "Failed to fetch") eq_refl) as [_ A].
    specialize (A "pt" "blob:1"). vm_compute in A |- *. exact A.
Defined.

(** A text command whose call fails adds two exchanges to the log, not
    one. *)
Lemma text_failure_not_one_exchange :
  ~ gains_one_error (history (ui (typed "hi")))
      (history (ui (run (handleSendCommand server_error) (typed "hi")))).
Proof. intros [message G]. vm_compute in G. discriminate. Qed.

End ConversationLog.

(** ** Feedback *)

Section Feedback.

(** C6.  Sending a feedback whose message is empty after trimming sends
    nothing: the list of requests is unchanged, the status becomes the
    localised "feedbackEmpty" message (never an empty string), and the
    message and the rating stay as entered. *)
Theorem handleSendFeedback_blank_rejected (w : World) (outcome : FetchResult) :
  trim (feedbackMessage (ui w)) = "" ->
  network (run (handleSendFeedback outcome) w) = network w
  /\ feedbackStatus (ui (run (handleSendFeedback outcome) w))
     = t (language (ui w)) "feedbackEmpty"
  /\ t (language (ui w)) "feedbackEmpty" <> ""
  /\ feedbackMessage (ui (run (handleSendFeedback outcome) w))
     = feedbackMessage (ui w)
  /\ feedbackRating (ui (run (handleSendFeedback outcome) w))
     = feedbackRating (ui w).
Proof.
  intros Blank. unfold handleSendFeedback. step_handler. rewrite Blank. cbn.
  repeat split.
  rewrite t_resolve. apply resolve_spec_nonempty. eexists. reflexivity.
Qed.

Lemma handleSendFeedback_blank_rejected_witness :
  network (run (handleSendFeedback (ok_with reply_R)) (feedback_filled "  " 4)) = []
  /\ feedbackStatus (ui (run (handleSendFeedback (ok_with reply_R)) (feedback_filled "  " 4)))
     = t "pt" "feedbackEmpty"
  /\ t "pt" "feedbackEmpty" <> ""
  /\ feedbackMessage (ui (run (handleSendFeedback (ok_with reply_R)) (feedback_filled "  " 4)))
     = "  "
  /\ feedbackRating (ui (run (handleSendFeedback (ok_with reply_R)) (feedback_filled "  " 4)))
     = 4.
Proof.
  pose proof (handleSendFeedback_blank_rejected (feedback_filled "  " 4)
    (ok_with reply_R) ltac:(vm_compute; reflexivity)) as H.
  vm_compute in H |- *. exact H.
Defined.






End Feedback.

(** ** Suggested actions *)

Section Actions.

Lemma val_or_truthy (a b : jsval) :
  val_truthy b = true -> val_truthy (val_or a b) = true.
Proof. intros H. unfold val_or. now destruct (val_truthy a) eqn:E. Qed.

Lemma val_or_falsy (a b : jsval) : val_truthy a = false -> val_or a b = b.
Proof. intros H. unfold val_or. now rewrite H. Qed.

(** The entries of a mapping are rendered with the key as text and the
    value as target, as they come. *)
Lemma render_entries_at (props : list (string * jsval)) (index : nat -> nat) :
  imap (fun i => render_action (index i)) (Object_entries props)
  = (fun p => Some (JStr p.1, p.2)) <$> props.
Proof.
  revert index. induction props as [|p props IH]; intros index; [reflexivity|].
  unfold Object_entries in *. rewrite !fmap_cons, imap_cons. f_equal.
  exact (IH (index ∘ S)).
Qed.

Lemma render_entries (props : list (string * jsval)) :
  render_actions (Object_entries props) = (fun p => Some (JStr p.1, p.2)) <$> props.
Proof. exact (render_entries_at props id). Qed.

(** An object entry always gets a text and a target. *)
Lemma render_object (i : nat) (props : list (string * jsval)) :
  exists label url,
    render_action i (JObj props) = Some (label, url)
    /\ val_truthy label = true /\ val_truthy url = true
    /\ (val_truthy (get_prop (JObj props) "url") = false ->
        val_truthy (get_prop (JObj props) "href") = false -> url = JStr "#").
Proof.
  unfold render_action. eexists. eexists. split; [reflexivity|]. split; [|split].
  - repeat apply val_or_truthy. reflexivity.
  - repeat apply val_or_truthy. reflexivity.
  - intros U H. now rewrite (val_or_falsy _ _ U), (val_or_falsy _ _ H).
Qed.

(** The text and the target of an object entry are the first truthy of
    the properties the callback reads, then the defaults. *)
Lemma render_object_exact (i : nat) (props : list (string * jsval)) :
  render_action i (JObj props)
  = Some
      (if val_truthy (get_prop (JObj props) "label")
       then get_prop (JObj props) "label"
       else if val_truthy (get_prop (JObj props) "title")
       then get_prop (JObj props) "title"
       else if val_truthy (get_prop (JObj props) "name")
       then get_prop (JObj props) "name"
       else JStr ("Action " +:+ pretty (i + 1)%nat),
       if val_truthy (get_prop (JObj props) "url")
       then get_prop (JObj props) "url"
       else if val_truthy (get_prop (JObj props) "href")
       then get_prop (JObj props) "href"
       else JStr "#").
Proof. reflexivity. Qed.

Lemma textual_truthy (v : jsval) :
  Events.textual v = true -> val_truthy v = true ->
  exists text, v = JStr text /\ text <> "".
Proof.
  destruct v as [| |b|n|text|items|props]; try discriminate.
  intros _ H. exists text. split; [reflexivity|]. now intros ->.
Qed.

(** With strings (or nothing) in the properties read, an object entry
    is a link with a non-empty text and a non-empty target. *)
Lemma render_object_textual (i : nat) (props : list (string * jsval)) :
  Events.textual (get_prop (JObj props) "label") = true ->
  Events.textual (get_prop (JObj props) "title") = true ->
  Events.textual (get_prop (JObj props) "name") = true ->
  Events.textual (get_prop (JObj props) "url") = true ->
  Events.textual (get_prop (JObj props) "href") = true ->
  resolves_to_link (render_action i (JObj props)).
Proof.
  intros L T N U H. rewrite render_object_exact. unfold resolves_to_link.
  assert (exists text,
            (if val_truthy (get_prop (JObj props) "label")
             then get_prop (JObj props) "label"
             else if val_truthy (get_prop (JObj props) "title")
             then get_prop (JObj props) "title"
             else if val_truthy (get_prop (JObj props) "name")
             then get_prop (JObj props) "name"
             else JStr ("Action " +:+ pretty (i + 1)%nat)) = JStr text
            /\ text <> "") as (label & -> & Label).
  { destruct (val_truthy (get_prop (JObj props) "label")) eqn:EL;
      [exact (textual_truthy _ L EL)|].
    destruct (val_truthy (get_prop (JObj props) "title")) eqn:ET;
      [exact (textual_truthy _ T ET)|].
    destruct (val_truthy (get_prop (JObj props) "name")) eqn:EN;
      [exact (textual_truthy _ N EN)|].
    eexists. split; [reflexivity|].
    change "Action " with (String "A" "ction "). now rewrite string_app_cons. }
  assert (exists text,
            (if val_truthy (get_prop (JObj props) "url")
             then get_prop (JObj props) "url"
             else if val_truthy (get_prop (JObj props) "href")
             then get_prop (JObj props) "href"
             else JStr "#") = JStr text
            /\ text <> "") as (url & -> & Url).
  { destruct (val_truthy (get_prop (JObj props) "url")) eqn:EU;
      [exact (textual_truthy _ U EU)|].
    destruct (val_truthy (get_prop (JObj props) "href")) eqn:EH;
      [exact (textual_truthy _ H EH)|].
    eexists. split; [reflexivity|]. discriminate. }
  now exists label, url.
Qed.

(** C5 (as amended).  [actions] is normalised to an ordered list: a list
    is kept as it is, a mapping becomes the list of its [key, value]
    pairs in property order, an absent field the empty list.  A pair
    (of a mapping, or an array of two or more items in a list) is
    rendered with its first item as text and its second as target,
    unchanged.  An object entry is rendered with, as text, the first
    truthy of [label], [title] and [name], and "Action n" (n the
    position counted from 1) when none is; as target, the first truthy
    of [url] and [href], and "#" when none is.  Both are truthy; they
    are non-empty strings when those five properties are strings or
    missing, and need not be otherwise: the label [true] is rendered as
    it is.  The mapping [{ "Play": "http://x" }] is rendered as the one
    link Play to http://x. *)
Theorem actions_normalised_and_rendered :
  (forall items, normalize_actions (ActList items) = items)
  /\ (forall props,
        normalize_actions (ActMap props) = (fun p => JArr [JStr p.1; p.2]) <$> props)
  /\ normalize_actions ActAbsent = []
  /\ (forall props,
        render_actions (normalize_actions (ActMap props))
        = (fun p => Some (JStr p.1, p.2)) <$> props)
  /\ (forall i key url rest,
        render_action i (JArr (key :: url :: rest)) = Some (key, url))
  /\ (forall i props,
        render_action i (JObj props)
        = Some
            (if val_truthy (get_prop (JObj props) "label")
             then get_prop (JObj props) "label"
             else if val_truthy (get_prop (JObj props) "title")
             then get_prop (JObj props) "title"
             else if val_truthy (get_prop (JObj props) "name")
             then get_prop (JObj props) "name"
             else JStr ("Action " +:+ pretty (i + 1)%nat),
             if val_truthy (get_prop (JObj props) "url")
             then get_prop (JObj props) "url"
             else if val_truthy (get_prop (JObj props) "href")
             then get_prop (JObj props) "href"
             else JStr "#"))
  /\ (forall i props,
        exists label url,
          render_action i (JObj props) = Some (label, url)
          /\ val_truthy label = true /\ val_truthy url = true
          /\ (val_truthy (get_prop (JObj props) "url") = false ->
              val_truthy (get_prop (JObj props) "href") = false ->
              url = JStr "#"))
  /\ (forall i props,
        Events.textual (get_prop (JObj props) "label") = true ->
        Events.textual (get_prop (JObj props) "title") = true ->
        Events.textual (get_prop (JObj props) "name") = true ->
        Events.textual (get_prop (JObj props) "url") = true ->
        Events.textual (get_prop (JObj props) "href") = true ->
        resolves_to_link (render_action i (JObj props)))
  /\ render_action 0 (JObj [("label", JBool true)]) = Some (JBool true, JStr "#")
  /\ render_actions (normalize_actions (ActMap [("Play", JStr "http://x")]))
     = [Some (JStr "Play", JStr "http://x")].
Proof.
  split; [reflexivity|]. split; [reflexivity|]. split; [reflexivity|].
  split; [intros props; apply render_entries|].
  split; [reflexivity|].
  split; [intros i props; apply render_object_exact|].
  split; [intros i props; apply render_object|].
  split; [intros i props; apply render_object_textual|].
  split; reflexivity.
Qed.

Lemma actions_normalised_and_rendered_witness :
  render_action 1 (JObj [("title", JStr "Docs")])
  = Some (JStr "Docs", JStr "#")
  /\ resolves_to_link (render_action 1 (JObj [("title", JStr "Docs")])).
Proof.
  destruct actions_normalised_and_rendered
    as (_ & _ & _ & _ & _ & Exact & _ & Textual & _).
  split.
  - exact (Exact 1%nat [("title", JStr "Docs")]).
  - apply (Textual 1%nat [("title", JStr "Docs")]); reflexivity.
Defined.

(** A mapping with an empty key is rendered as a link without text. *)
Lemma empty_key_renders_empty_label :
  ~ all_entries_resolve (ActMap [("", JStr "http://x")]).
Proof.
  unfold all_entries_resolve. intros H. apply Forall_inv in H.
  destruct H as (label & url & E & L & _). vm_compute in E.
  injection E as <- _. now apply L.
Qed.

End Actions.

(** ** Starting a capture *)

Section Capture.

Lemma lookup_grow {A} (l : list A) (x : A) (i : nat) (a : A) :
  l !! i = Some a -> (l ++ [x]) !! i = Some a.
Proof. intros H. now apply lookup_app_l_Some. Qed.

Lemma lookup_grow_started {A} (l : list A) (x y : A) (i : nat) (a : A) :
  l !! i = Some a -> <[length l := y]> (l ++ [x]) !! i = Some a.
Proof.
  intros H. pose proof (lookup_lt_Some _ _ _ H) as Lt.
  rewrite list_lookup_insert_ne by lia. now apply lookup_grow.
Qed.

(** Native recognition touches nothing of the capture in progress. *)
Lemma startLocalRecognition_frame (w : World) (start : Completion unit) :
  capture_session (run (startLocalRecognition start) w) = capture_session w.
Proof.
  unfold startLocalRecognition, capture_session. step_handler.
  destruct (recognitionRef (ui w)); [destruct start|]; reflexivity.
Qed.

(** [startRecording] has no guard: whatever the state, it empties the
    chunk buffer and resets the upload status; the recorders that exist
    keep their state. *)
Lemma startRecording_resets (w : World) (env : Env) :
  audioChunksRef (ui (run (startRecording env) w)) = []
  /\ uploadStatus (ui (run (startRecording env) w)) = "idle"
  /\ listening (ui (run (startRecording env) w)) = listening (ui w)
  /\ (forall id s, recorders w !! id = Some s ->
        recorders (run (startRecording env) w) !! id = Some s).
Proof.
  unfold startRecording, construct_recorder, new_MediaRecorder, recorder_start,
    setTimeout_auto_stop.
  step_handler.
  destruct env as [g m s o p st]; cbn.
  destruct g; cbn; [|now auto].
  destruct m; cbn; [|now auto].
  destruct s as [[]|e]; cbn; [|now auto].
  destruct o as [[]|e]; cbn; [|destruct p as [[]|e']; cbn; [|now auto]];
    rewrite list_lookup_middle by reflexivity;
    destruct st as [[]|e'']; cbn;
    auto using @lookup_grow, @lookup_grow_started.
Qed.

Lemma insert_at_end {A} (l : list A) (x y : A) :
  <[length l := y]> (l ++ [x]) = l ++ [y].
Proof. rewrite insert_app_r_alt by lia. now rewrite Nat.sub_diag. Qed.

(** Native recognition can only set the response (and log why). *)
Lemma startLocalRecognition_run (w : World) (start : Completion unit) :
  run (startLocalRecognition start) w
  = match recognitionRef (ui w), start with
    | Some _, Returns _ => w
    | Some _, Throws error =>
        with_ui
          (with_response (t (language (ui w)) "recognitionNotSupported") (ui w))
          (with_console
             (console w ++ ["Erro ao iniciar reconhecimento:" +:+ " " +:+ error]) w)
    | None, _ =>
        with_ui
          (with_response (t (language (ui w)) "recognitionNotSupported") (ui w)) w
    end.
Proof.
  unfold startLocalRecognition. step_handler.
  destruct (recognitionRef (ui w)); [destruct start as [[]|e]|]; reflexivity.
Qed.

(** What [startRecording] leaves of the recorder in use, case by case. *)
Lemma startRecording_replaces (w : World) (env : Env) :
  response (ui (run (startRecording env) w))
  = (if Events.starts env then ""
     else t (language (ui w)) (Events.refusal_key env))
  /\ mediaRecorderRef (ui (run (startRecording env) w))
     = (if Events.constructs env then Some (length (recorders w))
        else mediaRecorderRef (ui w))
  /\ recorders (run (startRecording env) w)
     = (if Events.constructs env
        then recorders w ++ [if Events.starts env then recording else inactive]
        else recorders w)
  /\ timers (run (startRecording env) w)
     = (if Events.starts env then S (timers w) else timers w)
  /\ network (run (startRecording env) w) = network w
  /\ history (ui (run (startRecording env) w)) = history (ui w).
Proof.
  unfold startRecording, construct_recorder, new_MediaRecorder, recorder_start,
    setTimeout_auto_stop.
  step_handler.
  destruct env as [g m s o p st]; cbn.
  destruct g; cbn; [|now auto 10].
  destruct m; cbn; [|now auto 10].
  destruct s as [[]|e]; cbn; [|now auto 10].
  destruct o as [[]|e]; cbn; [|destruct p as [[]|e']; cbn; [|now auto 10]];
    rewrite list_lookup_middle by reflexivity;
    destruct st as [[]|e'']; cbn; rewrite ?insert_at_end; auto 10.
Qed.

(** C3 (as amended).  A new capture is not rejected while one is in
    progress.  Started through native recognition, it leaves the
    capture in progress as it is (recorder in use, chunk buffer,
    recorders, timeouts, listening flag and upload status): the call
    changes nothing when recognition starts, and otherwise only sets
    the response to the localised message (logging the error when
    [start] threw).  Started through [startRecording], it empties the
    chunk buffer and sets the upload status to "idle" whatever the
    state; the listening flag and the state of the recorders that
    already exist are unchanged; the response is empty when the
    recording starts and the localised message of the refusal
    otherwise; when a recorder is constructed it is added to the
    recorders (recording if it started, inactive if not) and replaces
    the one in use, and when none is constructed the recorder in use
    and the recorders stay as they are; a timeout is added exactly when
    the recording starts; nothing is sent and the log is unchanged. *)
Theorem start_capture_effects (w : World) :
  (forall start : Completion unit,
     capture_session (run (startLocalRecognition start) w) = capture_session w
     /\ run (startLocalRecognition start) w
        = match recognitionRef (ui w), start with
          | Some _, Returns _ => w
          | Some _, Throws error =>
              with_ui
                (with_response (t (language (ui w)) "recognitionNotSupported")
                   (ui w))
                (with_console
                   (console w
                    ++ ["Erro ao iniciar reconhecimento:" +:+ " " +:+ error]) w)
          | None, _ =>
              with_ui
                (with_response (t (language (ui w)) "recognitionNotSupported")
                   (ui w)) w
          end)
  /\ (forall env : Env,
        audioChunksRef (ui (run (startRecording env) w)) = []
        /\ uploadStatus (ui (run (startRecording env) w)) = "idle"
        /\ listening (ui (run (startRecording env) w)) = listening (ui w)
        /\ (forall id s, recorders w !! id = Some s ->
              recorders (run (startRecording env) w) !! id = Some s)
        /\ response (ui (run (startRecording env) w))
           = (if Events.starts env then ""
              else t (language (ui w)) (Events.refusal_key env))
        /\ mediaRecorderRef (ui (run (startRecording env) w))
           = (if Events.constructs env then Some (length (recorders w))
              else mediaRecorderRef (ui w))
        /\ recorders (run (startRecording env) w)
           = (if Events.constructs env
              then recorders w
                   ++ [if Events.starts env then recording else inactive]
              else recorders w)
        /\ timers (run (startRecording env) w)
           = (if Events.starts env then S (timers w) else timers w)
        /\ network (run (startRecording env) w) = network w
        /\ history (ui (run (startRecording env) w)) = history (ui w)).
Proof.
  split.
  - intros start. split.
    + apply startLocalRecognition_frame.
    + apply startLocalRecognition_run.
  - intros env.
    destruct (startRecording_resets w env) as (A & B & C & D).
    destruct (startRecording_replaces w env) as (E & F & G & H & I & J).
    repeat split; assumption.
Qed.

Lemma start_capture_effects_witness :
  audioChunksRef (ui (run (startRecording recording_browser) capturing_world)) = []
  /\ recorders (run (startRecording recording_browser) capturing_world) !! 0%nat
     = Some recording
  /\ mediaRecorderRef (ui (run (startRecording recording_browser) capturing_world))
     = Some 1%nat.
Proof.
  destruct (start_capture_effects capturing_world) as [_ R].
  destruct (R recording_browser) as (Chunks & _ & _ & Kept & _ & Ref & _).
  split; [exact Chunks|]. split; [apply Kept; reflexivity|].
  vm_compute in Ref |- *. exact Ref.
Defined.

(** Pressing the button while recorder 0 is capturing and one chunk is
    buffered: the buffer is emptied and a second recorder takes over. *)
Lemma startRecording_while_capturing_mutates :
  capture_session (run (startRecording recording_browser) capturing_world)
  <> capture_session capturing_world.
Proof. vm_compute. discriminate. Qed.

End Capture.

(** ** The auto-stop timer *)

Section AutoStop.

(** When the timer's callback runs, the recorder that [mediaRecorderRef]
    names at that moment is stopped if it is not inactive, and left
    alone if it is; either way it is inactive afterwards, and every
    other recorder is as before. *)
Lemma auto_stop_callback_current (w : World) (id : nat) (s : RecordingState) :
  mediaRecorderRef (ui w) = Some id -> recorders w !! id = Some s ->
  recorders (run auto_stop_callback w) !! id = Some inactive
  /\ (s = inactive -> run auto_stop_callback w = w)
  /\ (forall other, other <> id ->
        recorders (run auto_stop_callback w) !! other = recorders w !! other).
Proof.
  intros Ref State. unfold auto_stop_callback, recorder_state, recorder_stop.
  step_handler. rewrite Ref. cbn. rewrite State. cbn.
  pose proof (lookup_lt_Some _ _ _ State) as Lt.
  destruct s; cbn; rewrite ?State; cbn; (split; [|split]).
  - reflexivity.
  - reflexivity.
  - reflexivity.
  - now rewrite list_lookup_insert_eq by exact Lt.
  - discriminate.
  - intros other Ne. now rewrite list_lookup_insert_ne by auto.
  - now rewrite list_lookup_insert_eq by exact Lt.
  - discriminate.
  - intros other Ne. now rewrite list_lookup_insert_ne by auto.
Qed.

(** A single session: the recorder started by [startRecording] is
    inactive once its timeout has expired. *)
Lemma single_session_auto_stops :
  recorders (run (startRecording recording_browser) fresh_world) = [recording]
  /\ recorders
       (run timeout_fires (run (startRecording recording_browser) fresh_world))
     = [inactive].
Proof. split; vm_compute; reflexivity. Qed.

(** C8 (the code departs from it).  Two captures started one after the
    other, both timeouts expired: the first timeout stops the second
    recorder, the one [mediaRecorderRef] names by then, the second
    timeout finds it inactive, and the first recorder is still
    recording with no timeout left to stop it. *)
Theorem overlapping_session_outlives_timeouts :
  recorders two_sessions = [recording; recording]
  /\ timers two_sessions = 2%nat
  /\ mediaRecorderRef (ui two_sessions) = Some 1%nat
  /\ recorders (run timeout_fires two_sessions) = [recording; inactive]
  /\ recorders two_sessions_timed_out = [recording; inactive]
  /\ timers two_sessions_timed_out = 0%nat.
Proof. repeat split; vm_compute; reflexivity. Qed.

End AutoStop.

(** * Further properties of the code *)

Import Events.

Section Helpers.

Lemma t_default_nonempty (lang key : string) :
  is_Some (table_entry default_language key) -> t lang key <> "".
Proof. intros H. rewrite t_resolve. now apply resolve_spec_nonempty. Qed.

Lemma or_str_nonempty (a : option string) (b : string) :
  b <> "" -> or_str a b <> "".
Proof.
  intros H. unfold or_str. destruct a as [s|]; [|exact H].
  destruct (str_truthy s) eqn:E; [|exact H]. now apply str_truthy_spec.
Qed.

Lemma assistantNotAvailable_nonempty (lang : string) :
  t lang "assistantNotAvailable" <> "".
Proof. apply t_default_nonempty. eexists. reflexivity. Qed.

Lemma uploadError_nonempty (lang : string) : t lang "uploadError" <> "".
Proof. apply t_default_nonempty. eexists. reflexivity. Qed.


End Helpers.

(** ** A text command, whatever the outcome *)

Section TextCommandOutcome.

Variables (w : World) (outcome : FetchResult).
Hypothesis Text : trim (command (ui w)) <> "".

(** X1.  A command that is not blank sends exactly one request, with
    the trimmed text and the current language, and the command field is
    empty afterwards whatever the call gives. *)
Theorem handleSendCommand_sends_once :
  network (run (handleSendCommand outcome) w)
  = network w ++ [PostProcess (trim (command (ui w))) (language (ui w))]
  /\ command (ui (run (handleSendCommand outcome) w)) = "".
Proof.
  unfold handleSendCommand. step_handler.
  rewrite (proj2 (str_truthy_spec _) Text). cbn.
  destruct outcome as [m|res]; cbn; [easy|].
  destruct (res_ok res); cbn; [|easy].
  destruct (res_body_json res); cbn; easy.
Qed.

(** X2.  After a command that is not blank the response shown is the
    response text of the reply when the call succeeded, its body parsed
    and it carries a text that is not empty, and the localised
    "assistantNotAvailable" text in every other case; it is never
    empty. *)
Theorem handleSendCommand_response_shown :
  response (ui (run (handleSendCommand outcome) w))
  = match parsed_body outcome with
    | Some data =>
        or_str (data_response data) (t (language (ui w)) "assistantNotAvailable")
    | None => t (language (ui w)) "assistantNotAvailable"
    end
  /\ response (ui (run (handleSendCommand outcome) w)) <> "".
Proof.
  unfold handleSendCommand, parsed_body. step_handler.
  rewrite (proj2 (str_truthy_spec _) Text). cbn.
  pose proof (assistantNotAvailable_nonempty (language (ui w))) as N.
  destruct outcome as [m|res]; cbn; [easy|].
  destruct (res_ok res); cbn; [|easy].
  destruct (res_body_json res) as [data|]; cbn; [|easy].
  split; [reflexivity|]. now apply or_str_nonempty.
Qed.


End TextCommandOutcome.

Lemma handleSendCommand_sends_once_witness :
  network (run (handleSendCommand server_error) (typed " hi "))
  = [PostProcess "hi" "pt"]
  /\ command (ui (run (handleSendCommand server_error) (typed " hi "))) = "".
Proof.
  pose proof (handleSendCommand_sends_once (typed " hi ") server_error
    ltac:(vm_compute; discriminate)) as H.
  vm_compute in H |- *. exact H.
Defined.

Lemma handleSendCommand_response_shown_witness :
  response (ui (run (handleSendCommand server_error) (typed " hi ")))
  = t "pt" "assistantNotAvailable"
  /\ response (ui (run (handleSendCommand (ok_with reply_R)) (typed " hi "))) = "R".
Proof.
  pose proof (handleSendCommand_response_shown (typed " hi ") server_error
    ltac:(vm_compute; discriminate)) as [Failed _].
  pose proof (handleSendCommand_response_shown (typed " hi ") (ok_with reply_R)
    ltac:(vm_compute; discriminate)) as [Replied _].
  split; [vm_compute in Failed |- *; exact Failed
         | vm_compute in Replied |- *; exact Replied].
Defined.


(** ** The upload of a recording, whatever the outcome *)

Section UploadOutcome.

Variables (w : World) (language localUrl : string) (outcome : FetchResult).


(** X5.  After the upload the player holds the audio the server sent
    when there is one, and otherwise the local recording: the reference
    is never lost, on success or on failure. *)
Theorem recorder_onstop_audio_reference :
  audioUrl (ui (run (recorder_onstop language localUrl outcome) w))
  = match parsed_body outcome with
    | Some data => or_str (data_audio data) localUrl
    | None => localUrl
    end.
Proof.
  unfold recorder_onstop. step_handler.
  destruct outcome as [m|res]; cbn; [reflexivity|].
  destruct (res_ok res); cbn; [|reflexivity].
  destruct (res_body_json res) as [data|]; cbn; [|reflexivity].
  assert (A : (if truthy (data_audio data)
               then default "" (data_audio data) else localUrl)
              = or_str (data_audio data) localUrl).
  { unfold or_str, truthy. destruct (data_audio data) as [a|]; reflexivity. }
  rewrite <- A.
  destruct (truthy (data_audio data)), (truthy (data_response data)),
    (truthy (data_input data)), (data_actions data); reflexivity.
Qed.

End UploadOutcome.


(** ** From the chunks of a capture to the file uploaded *)

Section Chunks.

(** Delivering [dataavailable] events only extends the buffer, with the
    chunks that have data, in the order they came. *)
Lemma deliver_run (events : list (option Blob)) :
  forall w : World,
    run (deliver events) w
    = with_ui (with_audioChunksRef
                 (audioChunksRef (ui w) ++ omap kept_chunk events) (ui w)) w.
Proof.
  induction events as [|data events IH]; intros w.
  - destruct w as [u rs n st net con]. destruct u. cbn.
    now rewrite app_nil_r.
  - unfold run in *. cbn [deliver]. unfold bind.
    destruct data as [blob|]; cbn.
    + destruct (blob_size blob); unfold update, ret; cbn.
      * apply IH.
      * rewrite IH. cbn. now rewrite <- app_assoc.
    + apply IH.
Qed.

Lemma recorder_onstop_request (w : World) (language localUrl : string)
    (outcome : FetchResult) :
  network (run (recorder_onstop language localUrl outcome) w)
  = network w
    ++ [PostUpload
          (new_Blob (audioChunksRef (ui w))
             (or_str (blob_type <$> head (audioChunksRef (ui w))) "audio/webm"))
          language].
Proof.
  unfold recorder_onstop. step_handler.
  destruct outcome as [m|res]; cbn; [reflexivity|].
  destruct (res_ok res); cbn; [|reflexivity].
  destruct (res_body_json res) as [data|]; cbn; [|reflexivity].
  destruct (truthy (data_audio data)), (truthy (data_response data)),
    (truthy (data_input data)), (data_actions data); reflexivity.
Qed.

End Chunks.

(** Case analysis on what the browser does to [startRecording]. *)
Ltac start_cases env :=
  unfold startRecording, construct_recorder, new_MediaRecorder, recorder_start,
    setTimeout_auto_stop;
  step_handler;
  let g := fresh "g" in let m := fresh "m" in let s := fresh "s" in
  let o := fresh "o" in let p := fresh "p" in let st := fresh "st" in
  destruct env as [g m s o p st]; cbn;
  destruct g; cbn;
  [ destruct m; cbn;
    [ destruct s as [[]|?]; cbn;
      [ destruct o as [[]|?]; cbn;
        [ | destruct p as [[]|?]; cbn ];
        rewrite ?list_lookup_middle by reflexivity;
        destruct st as [[]|?]; cbn
      | ]
    | ]
  | ].

Section StartRecording.

Lemma insert_last {A} (l : list A) (x y : A) :
  <[length l := y]> (l ++ [x]) = l ++ [y].
Proof.
  rewrite insert_app_r_alt by lia. now rewrite Nat.sub_diag.
Qed.

Lemma startRecording_sends_nothing (w : World) (env : Env) :
  network (run (startRecording env) w) = network w.
Proof. start_cases env; reflexivity. Qed.

(** X6.  A capture uploads exactly what it recorded: the file posted
    when the recorder stops is made of the chunks with data delivered
    since [startRecording], in the order they came; chunks buffered
    before that call and empty chunks are not in it.  Its type is the
    type of the first of these chunks, "audio/webm" when there is none
    or when that type is empty.  One request is sent, whatever the
    browser allowed and whatever the call gives. *)
Theorem capture_uploads_its_chunks (w : World) (env : Env)
    (events : list (option Blob)) (language localUrl : string)
    (outcome : FetchResult) :
  network
    (run (recorder_onstop language localUrl outcome)
       (run (deliver events) (run (startRecording env) w)))
  = network w
    ++ [PostUpload
          (new_Blob (omap kept_chunk events)
             (or_str (blob_type <$> head (omap kept_chunk events)) "audio/webm"))
          language].
Proof.
  rewrite recorder_onstop_request, deliver_run. cbn.
  rewrite (proj1 (startRecording_resets w env)), startRecording_sends_nothing.
  reflexivity.
Qed.

Lemma startRecording_started (w : World) (env : Env) :
  starts env = true ->
  recorders (run (startRecording env) w) = recorders w ++ [recording]
  /\ mediaRecorderRef (ui (run (startRecording env) w))
     = Some (length (recorders w))
  /\ timers (run (startRecording env) w) = S (timers w)
  /\ response (ui (run (startRecording env) w)) = "".
Proof.
  start_cases env; intros S; try discriminate; repeat split;
    apply insert_last.
Qed.

Lemma startRecording_refused (w : World) (env : Env) :
  starts env = false ->
  timers (run (startRecording env) w) = timers w
  /\ (recorders (run (startRecording env) w) = recorders w
      \/ recorders (run (startRecording env) w) = recorders w ++ [inactive])
  /\ response (ui (run (startRecording env) w)) <> "".
Proof.
  pose proof (t_default_nonempty (language (ui w)) "micNotSupported"
    ltac:(eexists; reflexivity)) as N1.
  pose proof (t_default_nonempty (language (ui w)) "recordingNotSupported"
    ltac:(eexists; reflexivity)) as N2.
  pose proof (t_default_nonempty (language (ui w)) "micAccessError"
    ltac:(eexists; reflexivity)) as N3.
  start_cases env; intros F; try discriminate; repeat split; auto.
Qed.

(** X7.  [startRecording] either starts a recorder or tells why not.
    When the browser lets it through, one new recorder is recording, it
    is the one in use, one more timeout is pending and the response is
    empty.  Otherwise no timeout is added, no recorder is left
    recording that was not (at most a new inactive one exists), and the
    response shown is a localised message that is not empty. *)
Theorem startRecording_outcome (w : World) (env : Env) :
  (starts env = true ->
     recorders (run (startRecording env) w) = recorders w ++ [recording]
     /\ mediaRecorderRef (ui (run (startRecording env) w))
        = Some (length (recorders w))
     /\ timers (run (startRecording env) w) = S (timers w)
     /\ response (ui (run (startRecording env) w)) = "")
  /\ (starts env = false ->
        timers (run (startRecording env) w) = timers w
        /\ (recorders (run (startRecording env) w) = recorders w
            \/ recorders (run (startRecording env) w) = recorders w ++ [inactive])
        /\ response (ui (run (startRecording env) w)) <> "").
Proof.
  split; [apply startRecording_started | apply startRecording_refused].
Qed.

End StartRecording.

Lemma startRecording_outcome_witness :
  recorders (run (startRecording recording_browser) capturing_world)
  = [recording; recording]
  /\ timers (run (startRecording
                   {| env_getUserMedia := false; env_MediaRecorder := true;
                      env_stream := Returns tt; env_new_with_options := Returns tt;
                      env_new_plain := Returns tt; env_start := Returns tt |})
                fresh_world) = 0%nat.
Proof.
  split.
  - destruct (startRecording_outcome capturing_world recording_browser) as [S _].
    destruct (S eq_refl) as (R & _). vm_compute in R |- *. exact R.
  - destruct (startRecording_outcome fresh_world
      {| env_getUserMedia := false; env_MediaRecorder := true;
         env_stream := Returns tt; env_new_with_options := Returns tt;
         env_new_plain := Returns tt; env_start := Returns tt |}) as [_ F].
    exact (proj1 (F eq_refl)).
Defined.

(** ** A capture and its timeout *)

Section CaptureTimeout.

Lemma timeout_fires_stops (w : World) (id : nat) :
  timers w <> 0%nat -> mediaRecorderRef (ui w) = Some id ->
  (id < length (recorders w))%nat ->
  recorders (run timeout_fires w) !! id = Some inactive.
Proof.
  intros T Ref Lt. unfold run, timeout_fires. cbn beta.
  destruct (timers w) as [|n]; [congruence|].
  unfold auto_stop_callback, recorder_state, recorder_stop. step_handler.
  rewrite Ref. cbn.
  destruct (lookup_lt_is_Some_2 _ _ Lt) as [s State].
  rewrite State. cbn.
  destruct s; cbn; rewrite ?State; cbn; trivial;
    now rewrite list_lookup_insert_eq by exact Lt.
Qed.

(** X8.  A capture that no other capture follows is stopped by its
    timeout: when [startRecording] went through, whatever chunks arrive
    in between, the recorder it started is inactive once a timeout has
    fired. *)
Theorem capture_stopped_by_timeout (w : World) (env : Env)
    (events : list (option Blob)) :
  starts env = true ->
  recorders
    (run timeout_fires
       (run (deliver events) (run recorder_onstart (run (startRecording env) w))))
  !! length (recorders w) = Some inactive.
Proof.
  intros S.
  destruct (startRecording_started w env S) as (R & Ref & T & _).
  apply timeout_fires_stops; rewrite deliver_run; cbn.
  - rewrite T. discriminate.
  - exact Ref.
  - rewrite R, length_app. cbn. lia.
Qed.

End CaptureTimeout.

Lemma capture_stopped_by_timeout_witness :
  recorders
    (run timeout_fires
       (run (deliver [Some sample_chunk; None])
          (run recorder_onstart (run (startRecording recording_browser) capturing_world))))
  !! 1%nat = Some inactive.
Proof.
  exact (capture_stopped_by_timeout capturing_world recording_browser
           [Some sample_chunk; None] eq_refl).
Defined.

(** ** Feedback, whatever the outcome *)

Section FeedbackOutcome.

Variables (w : World) (outcome : FetchResult).


(** X10.  A feedback whose message is not blank sends exactly one
    request: the author is "Rogerio", the message goes as it was
    entered (it is not trimmed), with the rating and the language. *)
Theorem handleSendFeedback_sends_once :
  trim (feedbackMessage (ui w)) <> "" ->
  network (run (handleSendFeedback outcome) w)
  = network w
    ++ [PostFeedback "Rogerio" (feedbackMessage (ui w)) (feedbackRating (ui w))
          (language (ui w))].
Proof.
  intros Text. unfold handleSendFeedback. step_handler.
  rewrite (proj2 (str_truthy_spec _) Text). cbn.
  destruct outcome as [m|res]; cbn; [reflexivity|].
  destruct (res_ok res); cbn; [|reflexivity].
  destruct (res_body_json res); reflexivity.
Qed.

End FeedbackOutcome.

Lemma handleSendFeedback_sends_once_witness :
  network (run (handleSendFeedback server_error) (feedback_filled " bom " 4))
  = [PostFeedback "Rogerio" " bom " 4 "pt"].
Proof.
  pose proof (handleSendFeedback_sends_once (feedback_filled " bom " 4)
    server_error ltac:(vm_compute; discriminate)) as H.
  vm_compute in H |- *. exact H.
Defined.

(** ** Language, recognition and the microphone button *)

Section Recognition.

(** X11.  Changing the language during a capture leaves the capture as
    it is (recorder in use, chunks, recorders, timeouts, flags) and
    sends nothing.  After a change to another language the microphone
    button starts native recognition when the browser has it and a
    recording otherwise, and the recognition locale is the entry of
    [recognitionLangMap] for the language, or the language code itself
    when the map has none. *)
Theorem change_language_effects (w : World) (selected : string)
    (hasSpeechRecognition : bool) :
  capture_session (run (change_language selected hasSpeechRecognition) w)
  = capture_session w
  /\ network (run (change_language selected hasSpeechRecognition) w) = network w
  /\ language (ui (run (change_language selected hasSpeechRecognition) w)) = selected
  /\ (selected <> language (ui w) ->
        recognitionRef (ui (run (change_language selected hasSpeechRecognition) w))
        = (if hasSpeechRecognition
           then Some {| recognition_lang :=
                          or_str (get_own recognitionLangMap selected) selected |}
           else None)
        /\ (forall start env,
              activate_capture start env
                (run (change_language selected hasSpeechRecognition) w)
              = if hasSpeechRecognition
                then startLocalRecognition start
                       (run (change_language selected hasSpeechRecognition) w)
                else startRecording env
                       (run (change_language selected hasSpeechRecognition) w))).
Proof.
  unfold change_language, bind_recognition, activate_capture, capture_session.
  step_handler.
  destruct (String.eqb_spec selected (language (ui w))) as [->|Ne]; cbn.
  - repeat split; congruence.
  - destruct hasSpeechRecognition; cbn; repeat split.
Qed.

(** X12.  What recognition heard is what is sent: after a result with
    a transcript that is not blank, sending the command posts the
    trimmed transcript with the current language; a result without
    transcript, or with an empty one, changes nothing. *)
Theorem recognised_text_is_sent (w : World) (transcript : string)
    (outcome : FetchResult) :
  (trim transcript <> "" ->
     network (run (handleSendCommand outcome)
                (run (recognition_onresult (Some transcript)) w))
     = network w ++ [PostProcess (trim transcript) (language (ui w))])
  /\ run (recognition_onresult None) w = w
  /\ run (recognition_onresult (Some "")) w = w.
Proof.
  split; [|split; reflexivity].
  intros Text.
  assert (T : str_truthy transcript = true).
  { apply str_truthy_spec. intros ->. now apply Text. }
  unfold recognition_onresult, or_str. rewrite T. cbn. rewrite T.
  unfold handleSendCommand. step_handler.
  rewrite (proj2 (str_truthy_spec _) Text). cbn.
  destruct outcome as [m|res]; cbn; [easy|].
  destruct (res_ok res); cbn; [|easy].
  destruct (res_body_json res); cbn; easy.
Qed.

End Recognition.

Lemma change_language_effects_witness :
  recognitionRef (ui (run (change_language "ar" true) capturing_world))
  = Some {| recognition_lang := "ar-SA" |}
  /\ capture_session (run (change_language "ar" true) capturing_world)
     = capture_session capturing_world.
Proof.
  destruct (change_language_effects capturing_world "ar" true) as (C & _ & _ & R).
  split; [|exact C].
  exact (proj1 (R ltac:(vm_compute; discriminate))).
Defined.

Lemma recognised_text_is_sent_witness :
  network (run (handleSendCommand server_error)
             (run (recognition_onresult (Some "tocar musica ")) fresh_world))
  = [PostProcess "tocar musica" "pt"].
Proof.
  pose proof (proj1 (recognised_text_is_sent fresh_world "tocar musica " server_error)
    ltac:(vm_compute; discriminate)) as H.
  vm_compute in H |- *. exact H.
Defined.

(** ** No handler lets a failure escape *)

Section NoEscape.

(** X13.  The handlers of [VoiceAssistant] catch what they await:
    whatever the network and the browser do, sending a command, sending
    a feedback, the [stop] callback of the recorder, starting
    recognition, starting a recording and the auto-stop timeout all
    return; none of them ends in an exception. *)
Theorem handlers_never_throw (w : World) :
  (forall outcome, (handleSendCommand outcome w).1 = Returns tt)
  /\ (forall outcome, (handleSendFeedback outcome w).1 = Returns tt)
  /\ (forall language localUrl outcome,
        (recorder_onstop language localUrl outcome w).1 = Returns tt)
  /\ (forall start, (startLocalRecognition start w).1 = Returns tt)
  /\ (forall env, (startRecording env w).1 = Returns tt)
  /\ (timeout_fires w).1 = Returns tt.
Proof.
  repeat split.
  - intros outcome. unfold handleSendCommand. step_handler.
    destruct (str_truthy (trim (command (ui w)))); cbn; [|reflexivity].
    destruct outcome as [m|res]; cbn; [reflexivity|].
    destruct (res_ok res); cbn; [|reflexivity].
    destruct (res_body_json res); reflexivity.
  - intros outcome. unfold handleSendFeedback. step_handler.
    destruct (str_truthy (trim (feedbackMessage (ui w)))); cbn; [|reflexivity].
    destruct outcome as [m|res]; cbn; [reflexivity|].
    destruct (res_ok res); cbn; [|reflexivity].
    destruct (res_body_json res); reflexivity.
  - intros language localUrl outcome. unfold recorder_onstop. step_handler.
    destruct outcome as [m|res]; cbn; [reflexivity|].
    destruct (res_ok res); cbn; [|reflexivity].
    destruct (res_body_json res) as [data|]; cbn; [|reflexivity].
    destruct (truthy (data_audio data)), (truthy (data_response data)),
      (truthy (data_input data)), (data_actions data); reflexivity.
  - intros start. unfold startLocalRecognition. step_handler.
    destruct (recognitionRef (ui w)); [destruct start as [[]|e]|]; reflexivity.
  - intros env. start_cases env; reflexivity.
  - unfold timeout_fires. destruct (timers w); [reflexivity|].
    unfold auto_stop_callback, recorder_state, recorder_stop. step_handler.
    destruct (mediaRecorderRef (ui w)) as [id|]; cbn; [|reflexivity].
    destruct (recorders w !! id) as [[]|] eqn:E; cbn; rewrite ?E; reflexivity.
Qed.

End NoEscape.

(** ** The two shapes of [actions] *)

Section ActionShapes.

Lemma render_labelled_at (links : list (string * string)) (index : nat -> nat) :
  Forall (fun p => p.1 <> "" /\ p.2 <> "") links ->
  imap (fun i => render_action (index i))
    ((fun p => JObj [("label", JStr p.1); ("url", JStr p.2)]) <$> links)
  = (fun p => Some (JStr p.1, JStr p.2)) <$> links.
Proof.
  revert index. induction links as [|[label url] links IH]; intros index H;
    [reflexivity|].
  apply Forall_cons in H as [[L U] H]. cbn in L, U.
  rewrite !fmap_cons, imap_cons. f_equal.
  - unfold render_action, val_or, get_prop. cbn.
    now rewrite (proj2 (str_truthy_spec _) L), (proj2 (str_truthy_spec _) U).
  - exact (IH (index ∘ S) H).
Qed.

Lemma define_property_new {A : Type} (props : list (string * A))
    (name : string) (value : A) :
  name ∉ props.*1 -> define_property props name value = props ++ [(name, value)].
Proof.
  induction props as [|[n v] props IH]; intros Fresh; [reflexivity|].
  cbn in *. apply not_elem_of_cons in Fresh as [Ne Fresh].
  destruct (String.eqb_spec n name) as [->|_]; [done|].
  now rewrite IH.
Qed.

Lemma define_all_new {A : Type} (members props : list (string * A)) :
  NoDup (props.*1 ++ members.*1) ->
  foldl (fun props member => define_property props member.1 member.2)
    props members
  = props ++ members.
Proof.
  revert props. induction members as [|[n v] members IH]; intros props Distinct.
  - now rewrite app_nil_r.
  - cbn [foldl fst snd]. rewrite define_property_new.
    + rewrite IH; [now rewrite <- app_assoc|].
      rewrite fmap_app, <- app_assoc. exact Distinct.
    + apply NoDup_app in Distinct as (_ & Apart & _). intros In.
      apply (Apart n In). cbn. left.
Qed.

Lemma digits_only_no_index (name : string) :
  digits_only name = false -> array_index name = None.
Proof.
  unfold array_index. destruct name as [|c rest]; [reflexivity|].
  now intros ->.
Qed.

(** Distinct names, none made of digits only, are enumerated as
    written. *)
Lemma own_properties_written {A : Type} (members : list (string * A)) :
  written_order members -> own_properties members = members.
Proof.
  intros [Distinct Named]. unfold own_properties.
  rewrite (define_all_new members []) by exact Distinct. cbn [app].
  clear Distinct.
  assert (List.filter (fun p : string * A => bool_decide (is_Some (array_index p.1)))
            members = []) as ->.
  { induction Named as [|p members P _ IH]; [reflexivity|].
    cbn. rewrite (digits_only_no_index _ P). cbn. exact IH. }
  assert (List.filter (fun p : string * A => bool_decide (array_index p.1 = None))
            members = members) as ->.
  { induction Named as [|p members P _ IH]; [reflexivity|].
    cbn. rewrite (digits_only_no_index _ P). cbn. now rewrite IH. }
  reflexivity.
Qed.

(** Without that, the mapping is not enumerated as written: the index
    "1" comes before "2" and before "b", and a name written twice is one
    property. *)
Lemma own_properties_reorders :
  own_properties [("b", 0); ("2", 1); ("1", 2)] = [("1", 2); ("2", 1); ("b", 0)]
  /\ own_properties [("a", 0); ("b", 1); ("a", 2)] = [("a", 2); ("b", 1)].
Proof. split; vm_compute; reflexivity. Qed.

(** X14.  A list of [{ label, url }] objects and the mapping written
    with the same labels and the same targets in the same order are
    shown as the same links, in the same order, when the labels are
    distinct, none is made of digits only, and no label and no target
    is empty. *)
Theorem list_and_mapping_render_alike (links : list (string * string)) :
  written_order links ->
  Forall (fun p => p.1 <> "" /\ p.2 <> "") links ->
  render_actions
    (normalize_actions
       (ActList ((fun p => JObj [("label", JStr p.1); ("url", JStr p.2)]) <$> links)))
  = render_actions
      (normalize_actions
         (ActMap (own_properties ((fun p => (p.1, JStr p.2)) <$> links))))
  /\ render_actions
       (normalize_actions
          (ActMap (own_properties ((fun p => (p.1, JStr p.2)) <$> links))))
     = (fun p => Some (JStr p.1, JStr p.2)) <$> links.
Proof.
  intros [Distinct Named] H.
  rewrite own_properties_written.
  - assert (M : render_actions
                  (normalize_actions (ActMap ((fun p => (p.1, JStr p.2)) <$> links)))
                = (fun p => Some (JStr p.1, JStr p.2)) <$> links).
    { cbn [normalize_actions]. rewrite render_entries, <- list_fmap_compose.
      reflexivity. }
    split; [|exact M]. rewrite M.
    exact (render_labelled_at links id H).
  - split.
    + rewrite <- list_fmap_compose. exact Distinct.
    + apply Forall_fmap. exact Named.
Qed.

End ActionShapes.

Lemma list_and_mapping_render_alike_witness :
  render_actions
    (normalize_actions
       (ActList [JObj [("label", JStr "Play"); ("url", JStr "http://x")];
                 JObj [("label", JStr "Docs"); ("url", JStr "http://y")]]))
  = render_actions
      (normalize_actions
         (ActMap [("Play", JStr "http://x"); ("Docs", JStr "http://y")])).
Proof.
  assert (W : written_order [("Play", "http://x"); ("Docs", "http://y")]).
  { split.
    - apply (bool_decide_unpack _). vm_compute. reflexivity.
    - repeat constructor. }
  assert (N : Forall (fun p : string * string => p.1 <> "" /\ p.2 <> "")
                [("Play", "http://x"); ("Docs", "http://y")]).
  { repeat constructor; discriminate. }
  pose proof (proj1 (list_and_mapping_render_alike
                       [("Play", "http://x"); ("Docs", "http://y")] W N)) as H.
  vm_compute in H |- *. exact H.
Defined.

(** ** The session token *)

Section SessionToken.
Import Auth.

Variable stored : gmap string string.

(** X15.  The token survives from login to logout and no further.  A
    login that was granted a token returns it and stores its text, which
    [getToken] then returns (for a string, strings being what the
    server sends, the string itself; the statement covers the tokens of
    [stored_as_written]).  A login that fails (a rejected call, or a
    body that is [null] or missing) throws, the error of the call when
    it was rejected, and leaves the session as it was.  After [logout],
    [getToken] returns nothing, whatever was stored; the other keys of
    the session storage are never touched. *)
Theorem session_token_lifecycle (outcome : AxiosResult) :
  (forall token, granted outcome = Some token ->
     stored_as_written token = true ->
     (login outcome stored).1 = Returns token
     /\ getToken (login outcome stored).2 = Some (to_string token))
  /\ (forall text, granted outcome = Some (JStr text) ->
        (login outcome stored).1 = Returns (JStr text)
        /\ getToken (login outcome stored).2 = Some text)
  /\ (granted outcome = None ->
        (exists error, (login outcome stored).1 = Throws error)
        /\ (login outcome stored).2 = stored)
  /\ (forall response_data message,
        outcome = Rejected response_data message ->
        login outcome stored = (Throws message, stored))
  /\ getToken (logout stored) = None
  /\ getToken (logout (login outcome stored).2) = None
  /\ (forall key, key <> token_key ->
        logout stored !! key = stored !! key
        /\ (login outcome stored).2 !! key = stored !! key).
Proof.
  assert (Granted : forall token, granted outcome = Some token ->
            (login outcome stored).1 = Returns token
            /\ getToken (login outcome stored).2 = Some (to_string token)).
  { unfold granted, login, getToken. intros token G.
    destruct outcome as [data|rd m]; [|discriminate].
    destruct (read_prop data "access_token"); [|discriminate].
    injection G as <-. cbn. split; [reflexivity|apply lookup_insert_eq]. }
  split; [intros token G _; exact (Granted token G)|].
  split; [intros text G; exact (Granted (JStr text) G)|].
  unfold granted, login, logout, getToken.
  split; [|split; [|split; [|split]]].
  - destruct outcome as [data|rd m]; [|intros _; split; [now exists m|reflexivity]].
    destruct (read_prop data "access_token") as [token|error]; [discriminate|].
    intros _. split; [now exists error|reflexivity].
  - now intros rd m ->.
  - apply lookup_delete_eq.
  - apply lookup_delete_eq.
  - intros key Other. split; [now apply lookup_delete_ne|].
    destruct outcome as [data|rd m]; [|reflexivity].
    destruct (read_prop data "access_token"); [|reflexivity].
    cbn. now apply lookup_insert_ne.
Qed.

(** X16.  The request interceptor adds [Authorization: Bearer <token>]
    exactly when the session holds a token that is not the empty
    string, and changes no other header; after [logout] it adds
    nothing. *)
Theorem request_interceptor_header (headers : gmap string string) :
  (forall token, getToken stored = Some token -> token <> "" ->
     request_interceptor stored headers !! "Authorization"
     = Some ("Bearer " +:+ token))
  /\ (getToken stored = None \/ getToken stored = Some "" ->
        request_interceptor stored headers = headers)
  /\ (forall name, name <> "Authorization" ->
        request_interceptor stored headers !! name = headers !! name)
  /\ request_interceptor (logout stored) headers = headers.
Proof.
  unfold request_interceptor, getToken, logout. repeat split.
  - intros token -> N. rewrite (proj2 (str_truthy_spec _) N).
    apply lookup_insert_eq.
  - intros [-> | ->]; reflexivity.
  - intros name N. destruct (stored !! token_key) as [token|]; [|reflexivity].
    destruct (str_truthy token); [|reflexivity]. now apply lookup_insert_ne.
  - now rewrite lookup_delete_eq.
Qed.

(** X17.  A login answered without an [access_token] stores the text
    "undefined" as the token, and the requests that follow carry
    [Authorization: Bearer undefined]. *)
Theorem login_without_token_field (props : list (string * jsval))
    (headers : gmap string string) :
  get_own props "access_token" = None ->
  getToken (login (Fulfilled (JObj props)) stored).2 = Some "undefined"
  /\ request_interceptor (login (Fulfilled (JObj props)) stored).2 headers
     !! "Authorization" = Some "Bearer undefined".
Proof.
  intros Missing. unfold login, read_prop, get_prop, getToken, request_interceptor.
  rewrite Missing. cbn. rewrite !lookup_insert_eq. cbn.
  split; [reflexivity|]. apply lookup_insert_eq.
Qed.

End SessionToken.

Lemma session_token_lifecycle_witness :
  Auth.getToken
    (Auth.login (Auth.Fulfilled (JObj [("access_token", JStr "abc")])) ∅).2
  = Some "abc"
  /\ Auth.getToken
       (Auth.login (Auth.Fulfilled (JObj [("access_token", JNum 7)])) ∅).2
     = Some "7"
  /\ (exists error, (Auth.login (Auth.Fulfilled JNull) ∅).1 = Throws error)
  /\ Auth.logout (<["theme" := "dark"]> ∅) !! "theme" = Some "dark".
Proof.
  destruct (session_token_lifecycle ∅
              (Auth.Fulfilled (JObj [("access_token", JStr "abc")])))
    as (_ & T & _).
  destruct (session_token_lifecycle ∅
              (Auth.Fulfilled (JObj [("access_token", JNum 7)])))
    as (G & _).
  destruct (session_token_lifecycle ∅ (Auth.Fulfilled JNull))
    as (_ & _ & F & _).
  split; [exact (proj2 (T "abc" eq_refl))|].
  split; [exact (proj2 (G (JNum 7) eq_refl eq_refl))|].
  split; [exact (proj1 (F eq_refl))|].
  destruct (session_token_lifecycle (<["theme" := "dark"]> ∅)
              (Auth.Rejected JUndefined "Network Error"))
    as (_ & _ & _ & _ & _ & _ & K).
  rewrite (proj1 (K "theme" ltac:(discriminate))). apply lookup_insert_eq.
Defined.

Lemma request_interceptor_header_witness :
  Auth.request_interceptor (<[Auth.token_key := "abc"]> ∅) Auth.default_headers
  !! "Authorization" = Some "Bearer abc"
  /\ Auth.request_interceptor (<[Auth.token_key := "abc"]> ∅) Auth.default_headers
     !! "Content-Type" = Some "application/json".
Proof.
  destruct (request_interceptor_header (<[Auth.token_key := "abc"]> ∅)
              Auth.default_headers) as (A & _ & O & _).
  split.
  - apply A; [apply lookup_insert_eq | discriminate].
  - rewrite O by discriminate. apply lookup_singleton_eq.
Defined.

Lemma login_without_token_field_witness :
  Auth.getToken (Auth.login (Auth.Fulfilled (JObj [("detail", JStr "ok")])) ∅).2
  = Some "undefined".
Proof.
  exact (proj1 (login_without_token_field ∅ [("detail", JStr "ok")]
                  Auth.default_headers eq_refl)).
Defined.

(** ** The login page *)

Section LoginPage.
Import Auth.

Variables (p : LoginPage) (outcome : AxiosResult).

(** X18.  Submitting the login form posts the credentials once, with
    the headers the interceptor gives them, and always ends with the
    loading flag off.  The session it leaves is the one [login] of
    [auth.js] leaves.  When a token is granted the error is cleared and
    the window goes to "/protected"; otherwise the window stays where
    it was and the error shown is truthy: the [detail] of the response
    when it has one, "Erro no login" when it has none. *)
Theorem handleSubmit_outcome :
  loading (handleSubmit outcome p) = false
  /\ posted (handleSubmit outcome p)
     = posted p
       ++ [(username p, password p, request_interceptor (session p) default_headers)]
  /\ session (handleSubmit outcome p) = (login outcome (session p)).2
  /\ (is_Some (granted outcome) ->
        error (handleSubmit outcome p) = JNull
        /\ location_href (handleSubmit outcome p) = "/protected")
  /\ (granted outcome = None ->
        location_href (handleSubmit outcome p) = location_href p
        /\ val_truthy (error (handleSubmit outcome p)) = true
        /\ (forall rd m, outcome = Rejected rd m ->
              val_truthy (get_prop rd "detail") = false ->
              error (handleSubmit outcome p) = JStr "Erro no login")
        /\ (forall rd m, outcome = Rejected rd m ->
              val_truthy (get_prop rd "detail") = true ->
              error (handleSubmit outcome p) = get_prop rd "detail")).
Proof.
  unfold handleSubmit, login, granted.
  destruct outcome as [data|rd m].
  - destruct (read_prop data "access_token") as [token|e]; cbn;
      repeat split; try discriminate;
      try match goal with H : is_Some None |- _ => destruct H; discriminate end.
  - cbn. repeat split;
      try match goal with H : is_Some None |- _ => destruct H; discriminate end.
    + unfold val_or. destruct (val_truthy (get_prop rd "detail")) eqn:E;
        [exact E|reflexivity].
    + intros rd' m' [= <- <-] F. unfold val_or. now rewrite F.
    + intros rd' m' [= <- <-] T. unfold val_or. now rewrite T.
Qed.

End LoginPage.

Lemma handleSubmit_outcome_witness :
  Auth.location_href
    (Auth.handleSubmit (Auth.Fulfilled (JObj [("access_token", JStr "abc")]))
       (Auth.login_form "ana" "segredo" ∅))
  = "/protected"
  /\ Auth.error
       (Auth.handleSubmit
          (Auth.Rejected (JObj [("detail", JStr "Credenciais inválidas")])
             "Request failed with status code 401")
          (Auth.login_form "ana" "errada" ∅))
     = JStr "Credenciais inválidas".
Proof.
  split.
  - destruct (handleSubmit_outcome (Auth.login_form "ana" "segredo" ∅)
      (Auth.Fulfilled (JObj [("access_token", JStr "abc")])))
      as (_ & _ & _ & G & _).
    exact (proj2 (G ltac:(eexists; reflexivity))).
  - destruct (handleSubmit_outcome (Auth.login_form "ana" "errada" ∅)
      (Auth.Rejected (JObj [("detail", JStr "Credenciais inválidas")])
         "Request failed with status code 401"))
      as (_ & _ & _ & _ & F).
    destruct (F eq_refl) as (_ & _ & _ & D).
    exact (D _ _ eq_refl eq_refl).
Defined.

(** ** The earlier assistant page *)

Section Legacy.

(** X19.  [Assistant.jsx] sends whatever is in the field, blank or not
    and untrimmed, once per press, and keeps the field as it is; the
    response it then shows is never empty; and the status of the reply
    plays no part: two replies with the same body leave the same page. *)
Theorem legacy_handleSendCommand_outcome (p : LegacyAssistant.Page)
    (outcome : FetchResult) :
  LegacyAssistant.sent (LegacyAssistant.handleSendCommand outcome p)
  = LegacyAssistant.sent p ++ [LegacyAssistant.inputText p]
  /\ LegacyAssistant.inputText (LegacyAssistant.handleSendCommand outcome p)
     = LegacyAssistant.inputText p
  /\ LegacyAssistant.responseText (LegacyAssistant.handleSendCommand outcome p) <> ""
  /\ (forall res res',
        res_body_json res = res_body_json res' ->
        LegacyAssistant.handleSendCommand (Responded res) p
        = LegacyAssistant.handleSendCommand (Responded res') p).
Proof.
  unfold LegacyAssistant.handleSendCommand. repeat split.
  - destruct outcome as [m|res]; [reflexivity|].
    destruct (res_body_json res); reflexivity.
  - destruct outcome as [m|res]; [reflexivity|].
    destruct (res_body_json res); reflexivity.
  - destruct outcome as [m|res]; [discriminate|].
    destruct (res_body_json res) as [data|]; [|discriminate].
    cbn. now apply or_str_nonempty.
  - intros res res' ->. reflexivity.
Qed.

Lemma legacy_entries_at (items : list jsval) (index : nat -> nat) :
  (imap (fun i item => (pretty (index i), item)) items).*2 = items.
Proof.
  revert index. induction items as [|x items IH]; intros index; [reflexivity|].
  rewrite imap_cons, fmap_cons. cbn. f_equal. exact (IH (index ∘ S)).
Qed.

(** X20.  For a mapping, [Assistant.jsx] and [VoiceAssistant] show the
    same links.  For a list they do not: [Assistant.jsx] shows one link
    per element, with the element itself as target and (so) as many
    links as elements, labelled by position. *)
Theorem legacy_links (props : list (string * jsval)) (items : list jsval) :
  Some <$> LegacyAssistant.links (ActMap props)
  = render_actions (normalize_actions (ActMap props))
  /\ (LegacyAssistant.links (ActList items)).*2 = items
  /\ (forall i item, items !! i = Some item ->
        LegacyAssistant.links (ActList items) !! i = Some (JStr (pretty i), item)).
Proof.
  unfold LegacyAssistant.links, LegacyAssistant.entries. repeat split.
  - cbn [normalize_actions]. rewrite render_entries, <- list_fmap_compose.
    reflexivity.
  - rewrite <- list_fmap_compose.
    exact (legacy_entries_at items id).
  - intros i item H. rewrite list_lookup_fmap, list_lookup_imap, H. reflexivity.
Qed.

End Legacy.

Lemma legacy_links_witness :
  LegacyAssistant.links (ActList [JStr "http://x"; JStr "http://y"]) !! 1%nat
  = Some (JStr "1", JStr "http://y").
Proof.
  exact (proj2 (proj2 (legacy_links [] [JStr "http://x"; JStr "http://y"]))
           1%nat (JStr "http://y") eq_refl).
Defined.

Lemma legacy_handleSendCommand_outcome_witness :
  LegacyAssistant.sent
    (LegacyAssistant.handleSendCommand server_error (LegacyAssistant.typed_page "  "))
  = ["  "]
  /\ LegacyAssistant.handleSendCommand (Responded (ok_response reply_R))
       (LegacyAssistant.typed_page "oi")
     = LegacyAssistant.handleSendCommand
         (Responded {| res_ok := false; res_status := 500;
                       res_body_text := None; res_body_json := Some reply_R |})
         (LegacyAssistant.typed_page "oi").
Proof.
  destruct (legacy_handleSendCommand_outcome (LegacyAssistant.typed_page "  ")
              server_error) as (S & _).
  split; [exact S|].
  destruct (legacy_handleSendCommand_outcome (LegacyAssistant.typed_page "oi")
              server_error) as (_ & _ & _ & Same).
  apply Same. reflexivity.
Defined.

(** ** The stand-alone recorder *)

Section StandAloneRecorder.
Import Uploader.




End StandAloneRecorder.


(** ** The protected page *)

Section ProtectedPage.
Import Auth Protected.

(** The view after the request has settled, case by case. *)
Lemma view_loaded (outcome : AxiosResult) :
  view (loaded outcome initial)
  = match outcome with
    | Fulfilled d => if val_truthy d then DataView d else LoadingView
    | Rejected rd m =>
        if val_truthy rd then ErrorView rd
        else if str_truthy m then ErrorView (JStr m) else LoadingView
    end.
Proof.
  unfold view, loaded, initial, val_or.
  destruct outcome as [d|rd m]; cbn; [now destruct (val_truthy d)|].
  destruct (val_truthy rd) eqn:E; [now rewrite E|].
  cbn. now destruct (str_truthy m).
Qed.

Ltac settle_view :=
  repeat match goal with
         | H : _ /\ _ |- _ => destruct H
         | H : exists _, _ |- _ => destruct H
         | H : _ \/ _ |- _ => destruct H
         | H : Fulfilled _ = Fulfilled _ |- _ => injection H as H; subst
         | H : Rejected _ _ = Rejected _ _ |- _ => injection H as H ?; subst
         | H : DataView _ = DataView _ |- _ => injection H as H; subst
         | H : ErrorView _ = ErrorView _ |- _ => injection H as H; subst
         end;
  try discriminate; try congruence.

(** X23.  After its request has settled, the protected page shows the
    data exactly when the call was fulfilled with truthy data, and an
    error exactly when it was rejected with a truthy response body or a
    message that is not empty; in the cases left (fulfilled with
    [null], [0], [false] or the empty string, or rejected with neither)
    it still shows "Carregando...". *)
Theorem protected_view (outcome : AxiosResult) :
  (forall d, view (loaded outcome initial) = DataView d <->
             outcome = Fulfilled d /\ val_truthy d = true)
  /\ (forall e, view (loaded outcome initial) = ErrorView e <->
                exists rd m, outcome = Rejected rd m
                  /\ e = val_or rd (JStr m) /\ val_truthy e = true)
  /\ (view (loaded outcome initial) = LoadingView <->
        (exists d, outcome = Fulfilled d /\ val_truthy d = false)
        \/ (exists rd, outcome = Rejected rd "" /\ val_truthy rd = false)).
Proof.
  rewrite view_loaded. unfold val_or.
  destruct outcome as [d0|rd m].
  - destruct (val_truthy d0) eqn:E; repeat split; intros; settle_view; eauto.
  - destruct (val_truthy rd) eqn:E; [|destruct (str_truthy m) eqn:M];
      repeat split; intros; settle_view;
      try (rewrite E in *; cbn in *; congruence);
      try (do 2 eexists; rewrite E; cbn; rewrite ?M; now eauto).
    right. exists rd. apply str_falsy_spec in M. now subst.
Qed.

End ProtectedPage.

Lemma protected_view_witness :
  Protected.view (Protected.loaded (Auth.Fulfilled (JNum 0)) Protected.initial)
  = Protected.LoadingView
  /\ Protected.view
       (Protected.loaded (Auth.Rejected JUndefined "Network Error") Protected.initial)
     = Protected.ErrorView (JStr "Network Error").
Proof.
  split.
  - apply (proj2 (proj2 (protected_view (Auth.Fulfilled (JNum 0))))).
    left. exists (JNum 0). split; reflexivity.
  - apply (proj1 (proj2 (protected_view (Auth.Rejected JUndefined "Network Error")))).
    exists JUndefined, "Network Error". repeat split.
Defined.

(** ** The conversation log only grows *)

Section AppendOnly.

Variable w : World.

(** X24.  No handler of [VoiceAssistant] rewrites the conversation log:
    sending a command and the [stop] callback of the recorder only add
    exchanges at its end, whatever the outcome, and every other handler
    (feedback, starting recognition or a recording, the timeout, the
    chunks of a recording, a recognition result, a change of language)
    leaves it as it is. *)
Theorem history_append_only :
  (forall outcome,
     history (ui w) `prefix_of` history (ui (run (handleSendCommand outcome) w)))
  /\ (forall language localUrl outcome,
        history (ui w)
        `prefix_of` history (ui (run (recorder_onstop language localUrl outcome) w)))
  /\ (forall outcome,
        history (ui (run (handleSendFeedback outcome) w)) = history (ui w))
  /\ (forall start,
        history (ui (run (startLocalRecognition start) w)) = history (ui w))
  /\ (forall env, history (ui (run (startRecording env) w)) = history (ui w))
  /\ history (ui (run timeout_fires w)) = history (ui w)
  /\ (forall events, history (ui (run (deliver events) w)) = history (ui w))
  /\ (forall transcript,
        history (ui (run (recognition_onresult transcript) w)) = history (ui w))
  /\ (forall selected has,
        history (ui (run (change_language selected has) w)) = history (ui w)).
Proof.
  repeat split.
  - intros outcome. unfold handleSendCommand. step_handler.
    destruct (str_truthy (trim (command (ui w)))); cbn; [|reflexivity].
    destruct outcome as [m|res]; cbn.
    { rewrite <- app_assoc. now apply prefix_app_r. }
    destruct (res_ok res); cbn.
    2:{ rewrite <- app_assoc. now apply prefix_app_r. }
    destruct (res_body_json res); cbn; rewrite <- app_assoc;
      now apply prefix_app_r.
  - intros language localUrl outcome. unfold recorder_onstop. step_handler.
    destruct outcome as [m|res]; cbn; [now apply prefix_app_r|].
    destruct (res_ok res); cbn; [|now apply prefix_app_r].
    destruct (res_body_json res) as [data|]; cbn; [|now apply prefix_app_r].
    destruct (truthy (data_audio data)), (truthy (data_response data)),
      (truthy (data_input data)), (data_actions data); cbn;
      rewrite <- ?app_assoc; try reflexivity; now apply prefix_app_r.
  - intros outcome. unfold handleSendFeedback. step_handler.
    destruct (str_truthy (trim (feedbackMessage (ui w)))); cbn; [|reflexivity].
    destruct outcome as [m|res]; cbn; [reflexivity|].
    destruct (res_ok res); cbn; [|reflexivity].
    destruct (res_body_json res); reflexivity.
  - intros start. unfold startLocalRecognition. step_handler.
    destruct (recognitionRef (ui w)); [destruct start as [[]|e]|]; reflexivity.
  - intros env. start_cases env; reflexivity.
  - unfold run, timeout_fires. cbn beta. destruct (timers w); [reflexivity|].
    unfold auto_stop_callback, recorder_state, recorder_stop. step_handler.
    destruct (mediaRecorderRef (ui w)) as [id|]; cbn; [|reflexivity].
    destruct (recorders w !! id) as [[]|] eqn:E; cbn; rewrite ?E; reflexivity.
  - intros events. now rewrite deliver_run.
  - intros transcript. unfold recognition_onresult. step_handler.
    destruct (str_truthy (or_str transcript "")); reflexivity.
  - intros selected has. unfold change_language, bind_recognition. step_handler.
    destruct (String.eqb selected (language (ui w))); [reflexivity|].
    destruct has; reflexivity.
Qed.

End AppendOnly.
